(** * Verification of the Supabase table scanner (src/force.py)

    A shallow embedding of [AdvancedSupabaseScanner]: candidate generation,
    the existence probe, the batch scan, the association-based discovery and
    the schema inference, with the properties proved about them.

    Conventions.
    - A Python [set] of strings is a [gset string]; the order in which Python
      iterates over a set is unspecified, so it is a parameter ([SetOrder]).
    - A Python [dict] is an insertion-ordered association list ([pydict]).
    - Network access is a state-passing function over an abstract world; the
      scanner's state additionally logs every request it sends.
    - [print] and [time.sleep] have no effect on any value computed and are
      left out. *)

From stdpp Require Import gmap strings list sorting pretty.
From Stdlib Require Import ZArith Ascii.

Open Scope string_scope.
Open Scope list_scope.
Open Scope nat_scope.

(** ** Python string primitives

    A string is a sequence of 8-bit characters (code points below 256),
    which covers every name the program contains; [len] counts
    characters. *)

Module PyStr.

(** [s.endswith(suf)] *)
Definition endswith (s suf : string) : bool :=
  let n := String.length s in
  let k := String.length suf in
  bool_decide (k ≤ n)%nat && bool_decide (String.substring (n - k) k s = suf).

(** [s[:-k]] for a literal [k > 0]: everything but the last [k] characters,
    the empty string when [s] is shorter. *)
Definition drop_last (k : nat) (s : string) : string :=
  String.substring 0 (String.length s - k) s.

(** Python compares strings by code point: [String.leb]. *)
Definition str_le (a b : string) : Prop := String.leb a b = true.

#[global] Instance str_le_dec a b : Decision (str_le a b).
Proof. unfold str_le. apply _. Defined.

#[global] Instance str_le_total : Total str_le.
Proof. intros a b. apply String.leb_total. Qed.

#[global] Instance str_le_antisym : AntiSymm eq str_le.
Proof. intros a b. apply String.leb_antisym. Qed.

(** [sorted(l)] on a list of strings. *)
Definition sorted (l : list string) : list string := merge_sort str_le l.

End PyStr.

(** ** Iteration order of a Python set

    [list(variations)] and [max(set(...), ...)] iterate over a set; the
    order is not specified by the language. Every result below holds for
    every order. *)

Class SetOrder := {
  set_iter : gset string → list string;
  set_iter_perm : ∀ X, set_iter X ≡ₚ elements X
}.

(** One concrete order, for evaluation. *)
Definition canonical_order : SetOrder :=
  {| set_iter := elements; set_iter_perm := λ X, reflexivity (elements X) |}.

(** Another one: the elements in the opposite order. *)
Definition reversed_order : SetOrder :=
  {| set_iter := λ X, reverse (elements X);
     set_iter_perm := λ X, reverse_Permutation (elements X) |}.

(** ** Candidate generator: [generate_table_variations] *)

Module Generator.
Import PyStr.

Definition prefixes : list string :=
  ["app_"; "user_"; "admin_"; "sys_"; "tmp_"; "old_"; "new_"].

Definition suffixes : list string :=
  ["_data"; "_info"; "_details"; "_log"; "_history"].

(** The body of the first loop: the singular form added for [table], if
    any. The [elif] is only reached when the first test fails. *)
Definition singular_of (table : string) : option string :=
  if endswith table "s" && bool_decide (3 < String.length table)%nat
  then Some (drop_last 1 table)
  else if endswith table "ies"
  then Some (drop_last 3 table +:+ "y")
  else None.

Definition add_singulars (common_tables : list string)
    (variations : gset string) : gset string :=
  foldl (λ vs table,
           match singular_of table with
           | Some singular => {[ singular ]} ∪ vs
           | None => vs
           end) variations common_tables.

Section WithOrder.
Context `{SetOrder}.

(** [for table in list(variations): variations.add(f(table))]: the list is
    a snapshot taken when the inner loop starts. *)
Definition add_all (f : string → string) (variations : gset string)
    : gset string :=
  foldl (λ vs table, {[ f table ]} ∪ vs) variations (set_iter variations).

Definition add_prefixes (variations : gset string) : gset string :=
  foldl (λ vs prefix, add_all (λ table, prefix +:+ table) vs)
        variations prefixes.

Definition add_suffixes (variations : gset string) : gset string :=
  foldl (λ vs suffix, add_all (λ table, table +:+ suffix) vs)
        variations suffixes.

(** The set [variations] at the end of the function. *)
Definition variations_of (common_tables : list string) : gset string :=
  add_suffixes (add_prefixes
    (add_singulars common_tables (list_to_set common_tables))).

(** The new value of [self.common_tables]. *)
Definition generate_table_variations (common_tables : list string)
    : list string :=
  sorted (set_iter (variations_of common_tables)).

End WithOrder.

(** The subsequences of a list, each in list order. *)
Fixpoint subseqs {A} (l : list A) : list (list A) :=
  match l with
  | [] => [[]]
  | a :: l' => ((a ::.) <$> subseqs l') ++ subseqs l'
  end.

(** The name [base] with the prefixes [ps] put in front one after the
    other (a later one outside an earlier one) and then the suffixes [ss]
    appended in order. *)
Definition affixed (base : string) (ps ss : list string) : string :=
  foldl (λ acc s, acc +:+ s) (foldl (λ acc p, p +:+ acc) base ps) ss.

(** Every such name for [base], over the subsequences of the two affix
    lists. *)
Definition forms_of (base : string) : list string :=
  ps ← subseqs prefixes; ss ← subseqs suffixes; [affixed base ps ss].

End Generator.

(** ** Python values, dictionaries and exceptions *)

Module PyVal.

(** The values that occur: [None], booleans, integers, floats (the double
    [m * 2^e]), strings, lists and dictionaries with string keys. A [dict]
    keeps its keys in insertion order. *)
#[warnings="-register-all"]
Inductive value :=
| VNone
| VBool (b : bool)
| VInt (n : Z)
| VFloat (m e : Z)
| VStr (s : string)
| VList (l : list value)
| VDict (d : list (string * value)).

Definition pydict := list (string * value).

(** [type(v).__name__] *)
Definition type_name (v : value) : string :=
  match v with
  | VNone => "NoneType"
  | VBool _ => "bool"
  | VInt _ => "int"
  | VFloat _ _ => "float"
  | VStr _ => "str"
  | VList _ => "list"
  | VDict _ => "dict"
  end.

(** Truth value of [v] in a condition. *)
Definition truthy (v : value) : bool :=
  match v with
  | VNone => false
  | VBool b => b
  | VInt n => negb (n =? 0)%Z
  | VFloat m _ => negb (m =? 0)%Z
  | VStr s => negb (String.eqb s "")
  | VList l => match l with [] => false | _ => true end
  | VDict d => match d with [] => false | _ => true end
  end.

(** [v is None] *)
Definition is_none (v : value) : bool :=
  match v with VNone => true | _ => false end.

Fixpoint dict_lookup (k : string) (d : pydict) : option value :=
  match d with
  | [] => None
  | (k', v) :: d' => if decide (k = k') then Some v else dict_lookup k d'
  end.

(** [d.get(k)] *)
Definition dict_get (k : string) (d : pydict) : value :=
  default VNone (dict_lookup k d).

(** [d[k] = v]: replaces the value of an existing key in place, appends a
    new key at the end. *)
Fixpoint dict_set (k : string) (v : value) (d : pydict) : pydict :=
  match d with
  | [] => [(k, v)]
  | (k', v') :: d' =>
      if decide (k = k') then (k, v) :: d' else (k', v') :: dict_set k v d'
  end.

(** [list(d.keys())] *)
Definition dict_keys (d : pydict) : list string := d.*1.

(** Exceptions, by the classes the code distinguishes or can meet, with the
    text [str(e)] gives. All are subclasses of [Exception]; an operator
    interrupt is not a transport behaviour and is outside the model. *)
Inductive exn_class :=
| ReqTimeout        (* requests.exceptions.Timeout *)
| KeyError
| TypeError
| AttributeError
| OtherException.

Inductive exn := Exn (c : exn_class) (msg : string).

Definition str_exn (e : exn) : string := let 'Exn _ msg := e in msg.

Definition is_timeout (e : exn) : bool :=
  match e with Exn ReqTimeout _ => true | _ => false end.

Inductive result (A : Type) :=
| Ok (a : A)
| Raise (e : exn).
Arguments Ok {A} a.
Arguments Raise {A} e.

(** [d[k]] *)
Definition getitem (d : pydict) (k : string) : result value :=
  match dict_lookup k d with
  | Some v => Ok v
  | None => Raise (Exn KeyError ("'" +:+ k +:+ "'"))
  end.

End PyVal.

(** ** The transport and the scanner's state *)

Module Net.
Import PyVal.

Record request := {
  req_url : string;
  req_headers : list (string * string);
  req_params : list (string * Z);
  req_timeout : option Z
}.

(** What the code reads of a response: [status_code], [json()] (which may
    raise) and [text]. *)
Record response := {
  status_code : Z;
  resp_json : result value;
  resp_text : string
}.

(** State of a run: the outside world and the log of requests sent. *)
Record state (World : Type) := {
  world : World;
  sent : list request
}.
Arguments world {World} s.
Arguments sent {World} s.

(** Computations that read and change the state and may raise. *)
Definition M (World A : Type) : Type :=
  state World → result A * state World.

Definition ret {World A} (a : A) : M World A := λ s, (Ok a, s).

Definition bind {World A B} (m : M World A) (k : A → M World B)
    : M World B :=
  λ s, match m s with
       | (Ok a, s') => k a s'
       | (Raise e, s') => (Raise e, s')
       end.

Definition lift {World A} (r : result A) : M World A := λ s, (r, s).

(** [try: m  except Exception as e: h e] *)
Definition try_except {World A} (m : M World A) (h : exn → M World A)
    : M World A :=
  λ s, match m s with
       | (Ok a, s') => (Ok a, s')
       | (Raise e, s') => h e s'
       end.

(** [for x in l: a = body a x] *)
Fixpoint for_each {World A B} (l : list B) (body : A → B → M World A)
    (a : A) : M World A :=
  match l with
  | [] => ret a
  | x :: l' => bind (body a x) (for_each l' body)
  end.

End Net.

Notation "x <- m ;; k" := (Net.bind m (fun x => k))
  (at level 100, m at next level, right associativity).

(** ** The scanner *)

Module Scanner.
Import PyStr PyVal Net Generator.

Record scanner := {
  api_url : string;
  api_key : string;
  auth_token : string;
  headers : list (string * string);
  common_tables : list string
}.

(** [s.rstrip('/')] *)
Fixpoint rstrip_slash (s : string) : string :=
  match s with
  | EmptyString => EmptyString
  | String c s' =>
      match rstrip_slash s' with
      | EmptyString => if Ascii.eqb c "/"%char then EmptyString
                       else String c EmptyString
      | r => String c r
      end
  end.

(** The literal list of [__init__]. *)
Definition initial_common_tables : list string := [
  "users"; "profiles"; "accounts"; "auth"; "sessions"; "tokens";
  "user_profiles"; "user_settings"; "user_roles"; "permissions";
  "posts"; "articles"; "pages"; "content"; "media"; "images";
  "files"; "documents"; "uploads"; "attachments"; "gallery";
  "products"; "categories"; "orders"; "payments"; "transactions";
  "cart"; "wishlist"; "inventory"; "suppliers"; "customers";
  "invoices"; "receipts"; "discounts"; "coupons"; "reviews";
  "comments"; "likes"; "shares"; "follows"; "messages";
  "notifications"; "chats"; "conversations"; "groups";
  "events"; "bookings"; "reservations"; "appointments";
  "schedule"; "calendar"; "availability"; "tickets";
  "projects"; "tasks"; "teams"; "employees"; "departments";
  "contacts"; "leads"; "clients"; "vendors"; "partners";
  "logs"; "analytics"; "metrics"; "reports"; "statistics";
  "activities"; "audit"; "tracking"; "sessions_log";
  "settings"; "config"; "preferences"; "options"; "themes";
  "templates"; "layouts"; "menus"; "navigation";
  "locations"; "addresses"; "cities"; "countries"; "regions";
  "coordinates"; "maps"; "places"; "venues";
  "courses"; "lessons"; "students"; "teachers"; "grades";
  "assignments"; "exams"; "certificates"; "schools";
  "patients"; "doctors"; "appointments"; "prescriptions";
  "treatments"; "medical_records"; "hospitals"; "clinics";
  "properties"; "listings"; "agents"; "buyers"; "sellers";
  "contracts"; "inspections"; "valuations";
  "games"; "players"; "scores"; "achievements"; "levels";
  "tournaments"; "matches"; "leaderboards";
  "accounts"; "transactions"; "budgets"; "expenses";
  "income"; "investments"; "loans"; "assets";
  "data"; "info"; "details"; "history"; "archive";
  "backup"; "temp"; "cache"; "queue"; "jobs" ].

(** [AdvancedSupabaseScanner(api_url, api_key, auth_token)] *)
Definition init `{SetOrder} (url key token : string) : scanner :=
  {| api_url := rstrip_slash url;
     api_key := key;
     auth_token := token;
     headers := [("apikey", key);
                 ("Authorization", "Bearer " +:+ token);
                 ("Content-Type", "application/json")];
     common_tables := generate_table_variations initial_common_tables |}.

Record scan_results := {
  accessible : list pydict;
  protected : list pydict;
  unknown : list pydict;
  not_found : list pydict
}.

Definition empty_results : scan_results :=
  {| accessible := []; protected := []; unknown := []; not_found := [] |}.

(** [range(0, total, step)] *)
Definition range_step (total step : nat) : list nat :=
  (λ k, k * step) <$> seq 0 ((total + step - 1) `div` step).

(** [l[i:j]] for [0 <= i <= j] *)
Definition slice {A} (i j : nat) (l : list A) : list A :=
  take (j - i) (drop i l).

Definition batch_size : nat := 10.

(** The batches of the scan loop, in order. *)
Definition batches (tables : list string) : list (list string) :=
  (λ i, slice i (i + batch_size) tables)
    <$> range_step (length tables) batch_size.

Section WithTransport.
Context {World : Type}.
Variable requests_get : request → World → result response * World.

(** [requests.get(...)]: one round trip, logged. *)
Definition http_get (req : request) : M World response :=
  λ s, let '(r, w) := requests_get req (world s) in
       (r, {| world := w; sent := sent s ++ [req] |}).

(** The request [check_table_exists] sends for [table_name]. *)
Definition probe_request (self : scanner) (table_name : string) : request :=
  {| req_url := api_url self +:+ "/" +:+ table_name;
     req_headers := headers self;
     req_params := [("limit", 1%Z)];
     req_timeout := Some 10%Z |}.

Definition check_table_exists (self : scanner) (table_name : string)
    : M World pydict :=
  try_except
    (response <- http_get (probe_request self table_name) ;;
     if decide (status_code response = 200%Z) then
       sample_data <- lift (resp_json response) ;;
       ret [("exists", VBool true);
            ("accessible", VBool true);
            ("status_code", VInt 200);
            ("sample_data", sample_data)]
     else if decide (status_code response = 401%Z) then
       ret [("exists", VBool true);
            ("accessible", VBool false);
            ("status_code", VInt 401);
            ("error", VStr "Authentication required")]
     else if decide (status_code response = 403%Z) then
       ret [("exists", VBool true);
            ("accessible", VBool false);
            ("status_code", VInt 403);
            ("error", VStr "Access forbidden")]
     else if decide (status_code response = 404%Z) then
       ret [("exists", VBool false);
            ("accessible", VBool false);
            ("status_code", VInt 404);
            ("error", VStr "Table not found")]
     else
       ret [("exists", VBool true);
            ("accessible", VBool false);
            ("status_code", VInt (status_code response));
            ("error", VStr ("HTTP " +:+ pretty (status_code response)))])
    (λ e,
       if is_timeout e then
         ret [("exists", VNone);
              ("accessible", VBool false);
              ("status_code", VInt 0);
              ("error", VStr "Timeout")]
       else
         ret [("exists", VNone);
              ("accessible", VBool false);
              ("status_code", VInt 0);
              ("error", VStr (str_exn e))]).

(** [result['exists'] and <test of result['accessible']>]: the right
    operand is only evaluated when the left one is true. *)
Definition exists_and (result : pydict) (test : bool → bool)
    : M World bool :=
  e <- lift (getitem result "exists") ;;
  if truthy e then
    a <- lift (getitem result "accessible") ;;
    ret (test (truthy a))
  else ret false.

(** The body of the inner loop of [comprehensive_table_scan]. *)
Definition scan_one (self : scanner) (results : scan_results)
    (table_name : string) : M World scan_results :=
  result <- check_table_exists self table_name ;;
  c1 <- exists_and result id ;;
  if c1 : bool then
    sample_data <- lift (getitem result "sample_data") ;;
    ret {| accessible := accessible results ++
             [[("name", VStr table_name); ("sample_data", sample_data)]];
           protected := protected results;
           unknown := unknown results;
           not_found := not_found results |}
  else
    c2 <- exists_and result negb ;;
    if c2 : bool then
      error <- lift (getitem result "error") ;;
      status <- lift (getitem result "status_code") ;;
      ret {| accessible := accessible results;
             protected := protected results ++
               [[("name", VStr table_name); ("error", error);
                 ("status_code", status)]];
             unknown := unknown results;
             not_found := not_found results |}
    else
      e <- lift (getitem result "exists") ;;
      if is_none e then
        error <- lift (getitem result "error") ;;
        ret {| accessible := accessible results;
               protected := protected results;
               unknown := unknown results ++
                 [[("name", VStr table_name); ("error", error)]];
               not_found := not_found results |}
      else ret results.

Definition comprehensive_table_scan (self : scanner) : M World scan_results :=
  for_each (batches (common_tables self))
    (λ results batch, for_each batch (scan_one self) results)
    empty_results.

(** The names in a bucket, in order. *)
Definition bucket_names (bucket : list pydict) : list value :=
  dict_get "name" <$> bucket.

(** *** Association-based discovery *)

Definition found_tables : list string := ["profiles"; "payments"].

Definition related_to_profiles : list string :=
  ["users"; "accounts"; "auth"; "sessions"; "user_settings";
   "user_roles"; "permissions"; "user_profiles"].

Definition related_to_payments : list string :=
  ["transactions"; "orders"; "invoices"; "products";
   "customers"; "receipts"; "payment_methods"; "subscriptions"].

Definition intelligent_guesses : list string :=
  (if bool_decide ("profiles" ∈ found_tables) then related_to_profiles
   else []) ++
  (if bool_decide ("payments" ∈ found_tables) then related_to_payments
   else []).

Definition intelligent_table_discovery (self : scanner)
    : M World (list string) :=
  for_each intelligent_guesses
    (λ confirmed_tables table,
       result <- check_table_exists self table ;;
       c <- exists_and result id ;;
       if c : bool then ret (confirmed_tables ++ [table])%list
       else ret confirmed_tables)
    [].

End WithTransport.
End Scanner.

(** ** Schema inference: [get_table_schema_info] *)

Module Schema.
Import PyVal Net Scanner.

(** [l.count(x)] *)
Definition count (l : list string) (x : string) : nat :=
  length (filter (λ y, y = x) l).

Fixpoint max_from (key : string → nat) (best : string) (l : list string)
    : string :=
  match l with
  | [] => best
  | x :: l' =>
      if decide (key best < key x) then max_from key x l'
      else max_from key best l'
  end.

(** [max(l, key=key)]: the first element with the greatest key. *)
Definition py_max (key : string → nat) (l : list string) : result string :=
  match l with
  | [] => Raise (Exn OtherException "max() iterable argument is empty")
  | x :: l' => Ok (max_from key x l')
  end.

(** [[row.get(col) for row in rows if row.get(col) is not None]] *)
Fixpoint collect_samples (col : string) (rows : list value)
    : result (list value) :=
  match rows with
  | [] => Ok []
  | row :: rows' =>
      match row with
      | VDict d =>
          let v := dict_get col d in
          match collect_samples col rows' with
          | Ok vs => Ok (if is_none v then vs else v :: vs)
          | Raise e => Raise e
          end
      | _ => Raise (Exn AttributeError
                      ("'" +:+ type_name row +:+
                       "' object has no attribute 'get'"))
      end
  end.

Section WithOrder.
Context `{SetOrder}.

(** The value stored in [column_info[col]], from the column's samples. *)
Definition column_entry (sample_values : list value) : result pydict :=
  if truthy (VList sample_values) then
    let value_types := type_name <$> sample_values in
    match py_max (count value_types) (set_iter (list_to_set value_types)) with
    | Ok most_common_type =>
        Ok [("type", VStr most_common_type);
            ("sample_values", VList (take 3 sample_values))]
    | Raise e => Raise e
    end
  else Ok [("type", VStr "unknown"); ("sample_values", VList [])].

(** The loop [for col in columns], from the state [column_info]. *)
Fixpoint fill_column_info (rows : list value) (columns : list string)
    (column_info : pydict) : result pydict :=
  match columns with
  | [] => Ok column_info
  | col :: columns' =>
      match collect_samples col (take 5 rows) with
      | Ok sample_values =>
          match column_entry sample_values with
          | Ok entry =>
              fill_column_info rows columns'
                (dict_set col (VDict entry) column_info)
          | Raise e => Raise e
          end
      | Raise e => Raise e
      end
  end.

(** What the function does with [data = response.json()]. *)
Definition analyze (data : value) : result pydict :=
  if truthy data then
    match data with
    | VList ((VDict d0 :: _) as rows) =>
        let columns := dict_keys d0 in
        match fill_column_info rows columns [] with
        | Ok column_info =>
            Ok [("success", VBool true);
                ("columns", VList (VStr <$> columns));
                ("column_info", VDict column_info);
                ("sample_count", VInt (Z.of_nat (length rows)));
                ("sample_data", data)]
        | Raise e => Raise e
        end
    | VList (row0 :: _) =>
        Raise (Exn AttributeError
                 ("'" +:+ type_name row0 +:+
                  "' object has no attribute 'keys'"))
    | VList [] => Raise (Exn OtherException "list index out of range")
    | VDict _ => Raise (Exn KeyError "0")
    | VStr _ => Raise (Exn AttributeError
                         "'str' object has no attribute 'keys'")
    | _ => Raise (Exn TypeError
                    ("'" +:+ type_name data +:+
                     "' object is not subscriptable"))
    end
  else
    Ok [("success", VBool true);
        ("columns", VList []);
        ("column_info", VDict []);
        ("sample_count", VInt 0);
        ("sample_data", VList [])].

Section WithTransport.
Context {World : Type}.
Variable requests_get : request → World → result response * World.

Definition schema_request (self : scanner) (table_name : string) : request :=
  {| req_url := api_url self +:+ "/" +:+ table_name;
     req_headers := headers self;
     req_params := [("limit", 10%Z)];
     req_timeout := None |}.

Definition get_table_schema_info (self : scanner) (table_name : string)
    : M World pydict :=
  try_except
    (response <- http_get requests_get (schema_request self table_name) ;;
     if decide (status_code response = 200%Z) then
       data <- lift (resp_json response) ;;
       lift (analyze data)
     else
       ret [("success", VBool false);
            ("error", VStr ("HTTP " +:+ pretty (status_code response)))])
    (λ e, ret [("success", VBool false); ("error", VStr (str_exn e))]).

End WithTransport.
End WithOrder.

(** The values that are not [None]. *)
Definition non_null (vs : list value) : list value :=
  filter (λ v, is_none v = false) vs.

(** The non-null values of [col] in the first five rows. *)
Definition samples_of (col : string) (rows : list pydict) : list value :=
  non_null (dict_get col <$> take 5 rows).

(** [t] is a dominant type of the samples: "unknown" when there are none,
    otherwise the type name of one of them that no other occurs more
    often than. *)
Definition dominant (t : string) (sample_values : list value) : Prop :=
  (sample_values = [] ∧ t = "unknown") ∨
  (sample_values ≠ [] ∧
   t ∈ (type_name <$> sample_values) ∧
   ∀ t', count (type_name <$> sample_values) t' ≤
         count (type_name <$> sample_values) t).

(** The field names that occur in some row. *)
Definition observed (col : string) (rows : list pydict) : Prop :=
  ∃ row, row ∈ rows ∧ col ∈ dict_keys row.

(** The sample rows [{"id":1,"name":"a"},{"id":2,"name":"b"},{"id":3}]. *)
Definition sample_rows : list pydict :=
  [[("id", VInt 1); ("name", VStr "a")];
   [("id", VInt 2); ("name", VStr "b")];
   [("id", VInt 3)]].

(** The sample rows [{"id":1},{"id":2,"name":"b"}]. *)
Definition late_field_rows : list pydict :=
  [[("id", VInt 1)]; [("id", VInt 2); ("name", VStr "b")]].

(** The [column_info] of a successful analysis. *)
Definition column_info_of (r : result pydict) : option pydict :=
  match r with
  | Ok d => match dict_lookup "column_info" d with
            | Some (VDict info) => Some info
            | _ => None
            end
  | Raise _ => None
  end.

End Schema.

(** ** Outcome classes

    The four classes are the branches of the scan loop: the three recording
    branches and the fall-through. *)

Module Outcome.
Import PyVal Net Scanner.

Inductive outcome := Accessible | Protected | Absent | Indeterminate.

#[global] Instance outcome_eq_dec : EqDecision outcome.
Proof. solve_decision. Defined.

(** The branch of the scan loop a probe result takes: the conditions of
    its [if]/[elif] chain, in order. [None] when a key is missing. *)
Definition classify (result : pydict) : option outcome :=
  match dict_lookup "exists" result, dict_lookup "accessible" result with
  | Some e, Some a =>
      if truthy e && truthy a then Some Accessible
      else if truthy e && negb (truthy a) then Some Protected
      else if is_none e then Some Indeterminate
      else Some Absent
  | _, _ => None
  end.

(** The class by what the transport did: raised, or answered with a status
    code and a body that [json()] parses or not. *)
Definition class_of_transport (r : result response) : outcome :=
  match r with
  | Raise _ => Indeterminate
  | Ok resp =>
      if decide (status_code resp = 200%Z) then
        match resp_json resp with
        | Ok _ => Accessible
        | Raise _ => Indeterminate
        end
      else if decide (status_code resp = 404%Z) then Absent
      else Protected
  end.

(** The dictionary [check_table_exists] returns, by what the transport
    did. *)
Definition probe_dict (r : result response) : pydict :=
  let failed (e : exn) :=
    [("exists", VNone); ("accessible", VBool false); ("status_code", VInt 0);
     ("error", VStr (if is_timeout e then "Timeout" else str_exn e))] in
  let refused (code : Z) (msg : string) :=
    [("exists", VBool true); ("accessible", VBool false);
     ("status_code", VInt code); ("error", VStr msg)] in
  match r with
  | Raise e => failed e
  | Ok resp =>
      let code := status_code resp in
      if decide (code = 200%Z) then
        match resp_json resp with
        | Ok data =>
            [("exists", VBool true); ("accessible", VBool true);
             ("status_code", VInt 200); ("sample_data", data)]
        | Raise e => failed e
        end
      else if decide (code = 401%Z) then refused 401%Z "Authentication required"
      else if decide (code = 403%Z) then refused 403%Z "Access forbidden"
      else if decide (code = 404%Z) then
        [("exists", VBool false); ("accessible", VBool false);
         ("status_code", VInt 404); ("error", VStr "Table not found")]
      else refused code ("HTTP " +:+ pretty code)
  end.

(** The entry the scan loop records for [table_name], by class. *)
Definition record_entry (table_name : string) (d : pydict)
    (results : scan_results) : scan_results :=
  match classify d with
  | Some Accessible =>
      {| accessible := accessible results ++
           [[("name", VStr table_name);
             ("sample_data", dict_get "sample_data" d)]];
         protected := protected results;
         unknown := unknown results;
         not_found := not_found results |}
  | Some Protected =>
      {| accessible := accessible results;
         protected := protected results ++
           [[("name", VStr table_name); ("error", dict_get "error" d);
             ("status_code", dict_get "status_code" d)]];
         unknown := unknown results;
         not_found := not_found results |}
  | Some Indeterminate =>
      {| accessible := accessible results;
         protected := protected results;
         unknown := unknown results ++
           [[("name", VStr table_name); ("error", dict_get "error" d)]];
         not_found := not_found results |}
  | _ => results
  end.

Section WithTransport.
Context {World : Type}.
Variable requests_get : request → World → result response * World.

(** The candidates of a pass with the class of their probe, the world
    threaded from one probe to the next. *)
Fixpoint probe_trace (self : scanner) (tables : list string) (w : World)
    : list (string * outcome) :=
  match tables with
  | [] => []
  | t :: ts =>
      let '(r, w') := requests_get (probe_request self t) w in
      (t, class_of_transport r) :: probe_trace self ts w'
  end.

End WithTransport.

(** The names of a trace that fell in class [c], in order. *)
Definition names_in (c : outcome) (tr : list (string * outcome))
    : list string :=
  (filter (λ p, p.2 = c) tr).*1.

(** The buckets [res] are the buckets [results] extended, in order, by the
    names of the trace [tr], each in the bucket of its class; [not_found]
    is unchanged. *)
Definition grown (results res : scan_results)
    (tr : list (string * outcome)) : Prop :=
  bucket_names (accessible res) =
    bucket_names (accessible results) ++ (VStr <$> names_in Accessible tr) ∧
  bucket_names (protected res) =
    bucket_names (protected results) ++ (VStr <$> names_in Protected tr) ∧
  bucket_names (unknown res) =
    bucket_names (unknown results) ++ (VStr <$> names_in Indeterminate tr) ∧
  not_found res = not_found results.

(** A transport that answers every request with the given status code and
    an empty record list. *)
Definition always (code : Z) (req : request) (w : unit)
    : result response * unit :=
  (Ok {| status_code := code; resp_json := Ok (VList []); resp_text := "" |},
   w).

(** A transport that answers every request with the given status code and
    a body that [json()] parses to [body]. *)
Definition answering (code : Z) (body : value) (req : request) (w : unit)
    : result response * unit :=
  (Ok {| status_code := code; resp_json := Ok body; resp_text := "" |}, w).

(** A record collection, in the words of the specification: a list, maybe
    empty, of key-to-value mappings. *)
Definition record_collection (v : value) : bool :=
  match v with
  | VList rows =>
      forallb (λ row, match row with VDict _ => true | _ => false end) rows
  | _ => false
  end.

Definition start : state unit := {| world := (); sent := [] |}.

(** A scanner for evaluating single probes; [check_table_exists] does not
    read the candidate list. *)
Definition demo : scanner :=
  {| api_url := "https://example.supabase.co/rest/v1";
     api_key := "key";
     auth_token := "token";
     headers := [("apikey", "key");
                 ("Authorization", "Bearer token");
                 ("Content-Type", "application/json")];
     common_tables := ["users"] |}.

End Outcome.


(** ** Alternative discovery and the display of results *)

Module Report.
Import PyStr PyVal Net Generator Scanner Schema.

(** [n] slashes. *)
Fixpoint slashes (n : nat) : string :=
  match n with
  | 0 => EmptyString
  | S n' => String "/" (slashes n')
  end.

Fixpoint replace_from (old new : string) (skip : nat) (s : string) : string :=
  match s with
  | EmptyString => EmptyString
  | String c s' =>
      match skip with
      | S k => replace_from old new k s'
      | 0 =>
          if String.prefix old s
          then new +:+ replace_from old new (String.length old - 1) s'
          else String c (replace_from old new 0 s')
      end
  end.

(** [s.replace(old, new)] for a non-empty [old]: the occurrences of [old]
    are replaced from left to right, without overlap. *)
Definition replace (old new s : string) : string := replace_from old new 0 s.

(** [needle in s] *)
Fixpoint contains (needle s : string) : bool :=
  String.prefix needle s ||
  match s with
  | EmptyString => false
  | String _ s' => contains needle s'
  end.

(** [str(v)] and [f"{v}"]: the text of a value. Only its action on strings
    is used: the text of a string is the string. *)
Class PyText := {
  py_str : value → string;
  py_str_str : ∀ s, py_str (VStr s) = s
}.

(** One such function, for evaluation. *)
Definition text_of_strings : PyText :=
  {| py_str := λ v, match v with VStr s => s | _ => EmptyString end;
     py_str_str := λ s, eq_refl |}.

Definition endpoints_to_try : list string := ["/rest/v1/"; "/rest/v1/rpc/"].

Definition endpoint_request (self : scanner) (endpoint : string) : request :=
  {| req_url := replace "/rest/v1" "" (api_url self) +:+ endpoint;
     req_headers := headers self;
     req_params := [];
     req_timeout := Some 10%Z |}.

(** The names of [tables] that occur in [text], appended to [discovered]
    in order. *)
Definition tables_in (text : string) (tables discovered : list string)
    : list string :=
  foldl (λ acc table, if contains table text then acc ++ [table] else acc)
        discovered tables.

(** What an endpoint's answer contributes: the candidate [t] occurs in the
    lower-cased text of a 200 answer. *)
Definition hit (lower : string → string) (r : result response)
    (t : string) : Prop :=
  ∃ resp, r = Ok resp ∧ status_code resp = 200%Z ∧
          contains t (lower (resp_text resp)) = true.

Section WithTransport.
Context `{SetOrder} `{PyText} {World : Type}.
Variable requests_get : request → World → result response * World.
(** [s.lower()], left abstract: on text outside ASCII it depends on the
    Unicode tables. *)
Variable lower : string → string.

(** The body of the loop over [endpoints_to_try]. *)
Definition try_endpoint (self : scanner) (discovered_tables : list string)
    (endpoint : string) : M World (list string) :=
  try_except
    (response <- http_get requests_get (endpoint_request self endpoint) ;;
     if decide (status_code response = 200%Z) then
       let text := lower (resp_text response) in
       ret (tables_in text (common_tables self) discovered_tables)
     else ret discovered_tables)
    (λ e, ret discovered_tables).

Definition try_alternative_discovery_methods (self : scanner)
    : M World (list string) :=
  discovered_tables <- for_each endpoints_to_try (try_endpoint self) [] ;;
  _ <- try_except
         (response <- http_get requests_get
                        (endpoint_request self "/rest/v1/") ;;
          ret ())
         (λ e, ret ()) ;;
  ret (set_iter (list_to_set discovered_tables)).

(** [len(v)] *)
Definition py_len (v : value) : result nat :=
  match v with
  | VList l => Ok (length l)
  | VDict d => Ok (length d)
  | VStr s => Ok (String.length s)
  | _ => Raise (Exn TypeError
                  ("object of type '" +:+ type_name v +:+ "' has no len()"))
  end.

(** An exception whose class and text are not modelled. *)
Definition unmodelled : exn := Exn OtherException "".

(** [', '.join(items)]: every item must be a string. *)
Fixpoint join_check (i : nat) (items : list value) : result () :=
  match items with
  | [] => Ok ()
  | VStr _ :: items' => join_check (S i) items'
  | v :: _ =>
      Raise (Exn TypeError
               ("sequence item " +:+ pretty i +:+
                ": expected str instance, " +:+ type_name v +:+ " found"))
  end.

(** The evaluation of the column preview that is printed: the slice
    [columns[:5]], the [append] of '...' when there are more than five
    columns, and the [join]. On a list it succeeds when the first five
    items are strings. The 'columns' of a schema are always a list of
    strings; for a value that is not a list the model stops with
    [unmodelled]. *)
Definition preview_columns (columns : value) : result () :=
  match columns with
  | VList items => join_check 0 (take 5 items)
  | _ => Raise unmodelled
  end.

(** The body of the loop over the accessible tables. *)
Definition describe_table (self : scanner) (detailed_accessible : list pydict)
    (table_info : pydict) : M World (list pydict) :=
  table_name <- lift (getitem table_info "name") ;;
  schema_info <- get_table_schema_info requests_get self (py_str table_name) ;;
  success <- lift (getitem schema_info "success") ;;
  if truthy success then
    columns <- lift (getitem schema_info "columns") ;;
    _ <- lift (py_len columns) ;;
    _ <- lift (getitem schema_info "sample_count") ;;
    _ <- (if truthy columns then lift (preview_columns columns)
          else ret ()) ;;
    columns <- lift (getitem schema_info "columns") ;;
    column_info <- lift (getitem schema_info "column_info") ;;
    sample_data <- lift (getitem schema_info "sample_data") ;;
    ret (detailed_accessible ++
         [[("name", table_name); ("columns", columns);
           ("column_info", column_info); ("sample_data", sample_data)]])
  else
    ret (detailed_accessible ++
         [[("name", table_name); ("columns", VList []);
           ("column_info", VDict []); ("sample_data", VList [])]]).

(** The body of the loop over the protected tables: it prints, reading
    three keys. *)
Definition print_protected (table_info : pydict) : M World () :=
  _ <- lift (getitem table_info "name") ;;
  _ <- lift (getitem table_info "error") ;;
  _ <- lift (getitem table_info "status_code") ;;
  ret ().

Definition display_comprehensive_results (self : scanner)
    (scan_results : scan_results) : M World (list pydict) :=
  detailed_accessible <-
    for_each (accessible scan_results) (describe_table self) [] ;;
  _ <- for_each (protected scan_results) (λ _ info, print_protected info) () ;;
  ret detailed_accessible.

End WithTransport.

(** An entry of the 'protected' bucket has the keys the display reads. *)
Definition protected_entry (e : pydict) : Prop :=
  is_Some (dict_lookup "name" e) ∧
  is_Some (dict_lookup "error" e) ∧
  is_Some (dict_lookup "status_code" e).

(** The text of the name of a bucket entry. *)
Definition entry_name `{PyText} (e : pydict) : string :=
  py_str (dict_get "name" e).

End Report.

(** * Properties *)

Lemma length_app (a b : string) :
  String.length (a +:+ b) = (String.length a + String.length b)%nat.
Proof. induction a as [|c a IH]; simpl; [done | by rewrite IH]. Qed.

Lemma elem_of_set_iter `{SetOrder} (X : gset string) (x : string) :
  x ∈ set_iter X ↔ x ∈ X.
Proof. rewrite set_iter_perm. apply elem_of_elements. Qed.

Lemma NoDup_set_iter `{SetOrder} (X : gset string) : NoDup (set_iter X).
Proof. rewrite set_iter_perm. apply NoDup_elements. Qed.

(** ** Properties of the generator *)

Module GeneratorFacts.
Import PyStr Generator.

Lemma elem_of_add_singulars (l : list string) (X : gset string) (x : string) :
  x ∈ add_singulars l X ↔
  x ∈ X ∨ ∃ t, t ∈ l ∧ singular_of t = Some x.
Proof.
  unfold add_singulars. revert X.
  induction l as [|t l IH]; intros X; simpl.
  - split; [by left | intros [?|(t & Ht & _)]; [done | by inversion Ht]].
  - rewrite IH. split.
    + intros [Hx | (t' & Ht' & Hs)].
      * destruct (singular_of t) as [s|] eqn:Es.
        -- apply elem_of_union in Hx as [Hx | Hx]; [|by left].
           apply elem_of_singleton in Hx as ->.
           right. exists t. split; [left | done].
        -- by left.
      * right. exists t'. split; [by right | done].
    + intros [Hx | (t' & Ht' & Hs)].
      * left. destruct (singular_of t); [|done].
        apply elem_of_union. by right.
      * apply elem_of_cons in Ht' as [-> | Ht'].
        -- left. rewrite Hs. apply elem_of_union. left.
           by apply elem_of_singleton.
        -- right. by exists t'.
Qed.

Lemma elem_of_foldl_add (f : string → string) (l : list string)
    (X : gset string) (x : string) :
  x ∈ foldl (λ vs table, {[ f table ]} ∪ vs) X l ↔
  x ∈ X ∨ ∃ t, t ∈ l ∧ x = f t.
Proof.
  revert X. induction l as [|t l IH]; intros X; simpl.
  - split; [by left | intros [?|(t & Ht & _)]; [done | by inversion Ht]].
  - rewrite IH. split.
    + intros [Hx | (t' & Ht' & ->)].
      * apply elem_of_union in Hx as [Hx | Hx]; [|by left].
        apply elem_of_singleton in Hx as ->.
        right. exists t. split; [left | done].
      * right. exists t'. split; [by right | done].
    + intros [Hx | (t' & Ht' & ->)].
      * left. apply elem_of_union. by right.
      * apply elem_of_cons in Ht' as [-> | Ht'].
        -- left. apply elem_of_union. left. by apply elem_of_singleton.
        -- right. by exists t'.
Qed.

Section WithOrder.
Context `{SetOrder}.

Lemma elem_of_add_all (f : string → string) (X : gset string) (x : string) :
  x ∈ add_all f X ↔ x ∈ X ∨ ∃ t, t ∈ X ∧ x = f t.
Proof.
  unfold add_all. rewrite elem_of_foldl_add.
  by setoid_rewrite elem_of_set_iter.
Qed.

Lemma add_all_mono f (X : gset string) x : x ∈ X → x ∈ add_all f X.
Proof. intros. apply elem_of_add_all. by left. Qed.

Lemma add_all_image f (X : gset string) t : t ∈ X → f t ∈ add_all f X.
Proof. intros. apply elem_of_add_all. right. by exists t. Qed.

(** A pass over a list of affixes keeps what is there and, for each affix
    of the list, adds the transform of everything present before its turn. *)
Lemma foldl_add_all_mono (g : string → string → string) (l : list string)
    (X : gset string) x :
  x ∈ X → x ∈ foldl (λ vs a, add_all (g a) vs) X l.
Proof.
  revert X. induction l as [|a l IH]; intros X Hx; simpl; [done|].
  apply IH. by apply add_all_mono.
Qed.

Lemma foldl_add_all_image (g : string → string → string) (l : list string)
    (X : gset string) a t :
  a ∈ l → t ∈ X → g a t ∈ foldl (λ vs a, add_all (g a) vs) X l.
Proof.
  revert X. induction l as [|b l IH]; intros X Ha Ht; [by inversion Ha|].
  simpl. apply elem_of_cons in Ha as [-> | Ha].
  - apply foldl_add_all_mono. by apply add_all_image.
  - apply IH; [done|]. by apply add_all_mono.
Qed.

(** An invariant of the elements: what holds of the base names and is
    kept by every transform holds of every generated name. *)
Lemma foldl_add_all_ind (P : string → Prop) (g : string → string → string)
    (l : list string) (X : gset string) :
  (∀ a t, a ∈ l → P t → P (g a t)) →
  (∀ x, x ∈ X → P x) →
  ∀ x, x ∈ foldl (λ vs a, add_all (g a) vs) X l → P x.
Proof.
  revert X. induction l as [|b l IH]; intros X Hg HX x Hx; simpl in Hx.
  - by apply HX.
  - eapply IH; [| |exact Hx].
    + intros a t Ha. apply Hg. by right.
    + intros y Hy. apply elem_of_add_all in Hy as [Hy | (t & Ht & ->)].
      * by apply HX.
      * apply Hg; [left | by apply HX].
Qed.

Lemma variations_of_seed (l : list string) x :
  x ∈ l → x ∈ variations_of l.
Proof.
  intros Hx. unfold variations_of, add_suffixes, add_prefixes.
  do 2 apply foldl_add_all_mono.
  apply elem_of_add_singulars. left. by apply elem_of_list_to_set.
Qed.

Lemma variations_of_singular (l : list string) t s :
  t ∈ l → singular_of t = Some s → s ∈ variations_of l.
Proof.
  intros Ht Hs. unfold variations_of, add_suffixes, add_prefixes.
  do 2 apply foldl_add_all_mono.
  apply elem_of_add_singulars. right. by exists t.
Qed.

Lemma variations_of_ind (P : string → Prop) (l : list string) :
  (∀ t, t ∈ l → P t) →
  (∀ t s, t ∈ l → singular_of t = Some s → P s) →
  (∀ p t, p ∈ prefixes → P t → P (p +:+ t)) →
  (∀ s t, s ∈ suffixes → P t → P (t +:+ s)) →
  ∀ x, x ∈ variations_of l → P x.
Proof.
  intros Hseed Hsing Hpre Hsuf x Hx.
  unfold variations_of, add_suffixes, add_prefixes in Hx.
  eapply (foldl_add_all_ind P (λ s t, t +:+ s)); [exact Hsuf| |exact Hx].
  intros y Hy.
  eapply (foldl_add_all_ind P (λ p t, p +:+ t)); [exact Hpre| |exact Hy].
  intros z Hz. apply elem_of_add_singulars in Hz as [Hz | (t & Ht & Hs)].
  - apply Hseed. by apply elem_of_list_to_set in Hz.
  - by eapply Hsing.
Qed.

Lemma elem_of_generate (l : list string) x :
  x ∈ generate_table_variations l ↔ x ∈ variations_of l.
Proof.
  unfold generate_table_variations, sorted.
  rewrite merge_sort_Permutation. apply elem_of_set_iter.
Qed.

Lemma NoDup_generate (l : list string) :
  NoDup (generate_table_variations l).
Proof.
  unfold generate_table_variations, sorted.
  rewrite merge_sort_Permutation. apply NoDup_set_iter.
Qed.

End WithOrder.
End GeneratorFacts.

(** ** Claims about the generator *)

Module GeneratorClaims.
Import PyStr Generator GeneratorFacts.

Ltac in_list := apply list_elem_of_In; simpl; tauto.

Lemma prefixed_suffixed `{SetOrder} (seeds : list string) (t p s : string) :
  t ∈ seeds → p ∈ prefixes → s ∈ suffixes →
  p +:+ t ∈ variations_of seeds ∧
  t +:+ s ∈ variations_of seeds ∧
  (p +:+ t) +:+ s ∈ variations_of seeds.
Proof.
  intros Ht Hp Hs.
  assert (Hbase : t ∈ add_singulars seeds (list_to_set seeds)).
  { apply elem_of_add_singulars. left. by apply elem_of_list_to_set. }
  assert (Hpt : p +:+ t ∈ add_prefixes (add_singulars seeds (list_to_set seeds))).
  { unfold add_prefixes.
    by apply (foldl_add_all_image (λ p t, p +:+ t)). }
  unfold variations_of, add_suffixes. split_and!.
  - by apply foldl_add_all_mono.
  - apply (foldl_add_all_image (λ s t, t +:+ s)); [done|].
    unfold add_prefixes. by apply foldl_add_all_mono.
  - by apply (foldl_add_all_image (λ s t, t +:+ s)).
Qed.

(** C8: for every seed vocabulary and every set iteration order, the
    generated candidate list contains every seed and has no duplicate
    entry. *)
Theorem C8_generate_superset_nodup `{SetOrder} (seeds : list string) :
  (∀ x, x ∈ seeds → x ∈ generate_table_variations seeds) ∧
  NoDup (generate_table_variations seeds).
Proof.
  split.
  - intros x Hx. apply elem_of_generate. by apply variations_of_seed.
  - apply NoDup_generate.
Qed.

(** C3, as stated, fails: from the seed set {"data"} the generated list
    does contain the doubly transformed name "app_data_log". *)
Lemma C3_doubly_transformed_present :
  ¬ ("app_data" ∈ @generate_table_variations canonical_order ["data"] ∧
     "data_log" ∈ @generate_table_variations canonical_order ["data"] ∧
     "app_data_log" ∉ @generate_table_variations canonical_order ["data"]).
Proof.
  intros (_ & _ & Hn). apply Hn. apply (@elem_of_generate canonical_order).
  destruct (@prefixed_suffixed canonical_order ["data"] "data" "app_" "_log")
    as (_ & _ & Hin); [in_list .. | exact Hin].
Qed.

(** C4, on the code: the test for a trailing "s" comes first, so the seed
    "categories" gets the singular "categorie" and the list generated from
    it never contains "category". "posts" gets "post" and "as" gets no
    singular, as claimed. *)
Theorem C4_categories_yields_categorie `{SetOrder} :
  singular_of "categories" = Some "categorie" ∧
  "categorie" ∈ generate_table_variations ["categories"] ∧
  ("category" ∉ generate_table_variations ["categories"]) ∧
  singular_of "posts" = Some "post" ∧
  singular_of "as" = None.
Proof.
  split; [reflexivity|]. split; [|split; [|split; reflexivity]].
  - apply elem_of_generate.
    apply (variations_of_singular _ "categories"); [in_list | reflexivity].
  - rewrite elem_of_generate. intros Hin.
    assert (Hlen : (9 ≤ String.length "category")%nat); [|simpl in Hlen; lia].
    revert Hin. generalize "category". 
    apply (variations_of_ind (λ x, (9 ≤ String.length x)%nat)).
    + intros t Ht. apply list_elem_of_singleton in Ht as ->. simpl. lia.
    + intros t s Ht Hs. apply list_elem_of_singleton in Ht as ->.
      vm_compute in Hs. injection Hs as <-. simpl. lia.
    + intros p t _ Ht. rewrite length_app. lia.
    + intros s t _ Ht. rewrite length_app. lia.
Qed.

End GeneratorClaims.

(** ** Properties of the probe and of the scan loop *)

Module ProbeFacts.
Import PyStr PyVal Net Generator Scanner Outcome.

Section WithTransport.
Context {World : Type}.
Variable requests_get : request → World → result response * World.

(** [check_table_exists] never raises: it returns the dictionary
    determined by what the transport did, and logs its one request. *)
Lemma check_table_exists_spec (self : scanner) (name : string)
    (st : state World) :
  check_table_exists requests_get self name st =
    (Ok (probe_dict (requests_get (probe_request self name) (world st)).1),
     {| world := (requests_get (probe_request self name) (world st)).2;
        sent := sent st ++ [probe_request self name] |}).
Proof.
  unfold check_table_exists, try_except, bind, http_get, lift, ret, probe_dict.
  destruct (requests_get _ _) as [[resp|e] w]; simpl.
  - repeat case_decide; try done.
    destruct (resp_json resp) as [data|e]; simpl; [done|].
    by destruct (is_timeout e).
  - by destruct (is_timeout e).
Qed.

Lemma classify_probe_dict (r : result response) :
  classify (probe_dict r) = Some (class_of_transport r).
Proof.
  unfold probe_dict, class_of_transport.
  destruct r as [resp|e]; [|done].
  repeat case_decide; try done; try lia.
  by destruct (resp_json resp).
Qed.

(** One turn of the scan loop never raises and records the candidate in
    the bucket of its class, or nowhere. *)
Lemma scan_one_spec (self : scanner) (results : scan_results)
    (name : string) (st : state World) :
  scan_one requests_get self results name st =
    (Ok (record_entry name
           (probe_dict (requests_get (probe_request self name) (world st)).1)
           results),
     {| world := (requests_get (probe_request self name) (world st)).2;
        sent := sent st ++ [probe_request self name] |}).
Proof.
  unfold scan_one, bind at 1. rewrite check_table_exists_spec.
  unfold record_entry, probe_dict, classify.
  destruct (requests_get _ _) as [[resp|e] w]; simpl; [|done].
  repeat case_decide; try done.
  by destruct (resp_json resp).
Qed.

End WithTransport.
End ProbeFacts.

(** ** Properties of loops and batches *)

Module ScanFacts.
Import PyStr PyVal Net Generator Scanner Outcome ProbeFacts.

Lemma for_each_app {World A B} (body : A → B → M World A)
    (l1 l2 : list B) (a : A) (st : state World) :
  for_each (l1 ++ l2) body a st =
  bind (for_each l1 body a) (for_each l2 body) st.
Proof.
  revert a st. induction l1 as [|x l1 IH]; intros a st; simpl.
  - done.
  - unfold bind in *. destruct (body a x st) as [[a'|e] st']; [|done].
    apply IH.
Qed.

(** Running the inner loop over each batch in turn is running it over the
    concatenation of the batches. *)
Lemma for_each_concat {World A B} (body : A → B → M World A)
    (ls : list (list B)) (a : A) (st : state World) :
  for_each ls (λ a batch, for_each batch body a) a st =
  for_each (concat ls) body a st.
Proof.
  revert a st. induction ls as [|l ls IH]; intros a st; simpl; [done|].
  rewrite for_each_app. unfold bind.
  destruct (for_each l body a st) as [[a'|e] st']; [apply IH | done].
Qed.

Lemma concat_chunks {A} (b n : nat) (l : list A) :
  (length l ≤ n * b)%nat →
  concat ((λ k, take b (drop (k * b) l)) <$> seq 0 n) = l.
Proof.
  revert l. induction n as [|n IH]; intros l Hl; simpl.
  - destruct l; [done | simpl in Hl; lia].
  - rewrite drop_0, <- fmap_S_seq, <- list_fmap_compose.
    rewrite <- (take_drop b l) at 2. f_equal.
    rewrite <- (IH (drop b l)) by (rewrite length_drop; lia).
    f_equal. apply list_fmap_ext. intros _ k _. simpl.
    rewrite drop_drop. do 2 f_equal; lia.
Qed.

(** The batches of the scan, in order, make up the candidate list. *)
Lemma concat_batches (tables : list string) :
  concat (batches tables) = tables.
Proof.
  unfold batches, range_step, slice, batch_size.
  rewrite <- list_fmap_compose.
  rewrite <- (concat_chunks 10 ((length tables + 10 - 1) `div` 10) tables)
    at 2.
  - f_equal. apply list_fmap_ext. intros _ k _. simpl.
    f_equal; lia.
  - pose proof (Nat.div_mod_eq (length tables + 10 - 1) 10).
    pose proof (Nat.mod_upper_bound (length tables + 10 - 1) 10).
    lia.
Qed.

Section WithTransport.
Context {World : Type}.
Variable requests_get : request → World → result response * World.

Lemma record_entry_grown (name : string) (r : result response)
    (results : scan_results) :
  grown results (record_entry name (probe_dict r) results)
        [(name, class_of_transport r)].
Proof.
  unfold grown, record_entry, names_in, bucket_names.
  rewrite classify_probe_dict.
  destruct (class_of_transport r); simpl;
    rewrite ?fmap_app, ?app_nil_r; done.
Qed.

Lemma grown_trans (r1 r2 r3 : scan_results) tr1 tr2 :
  grown r1 r2 tr1 → grown r2 r3 tr2 → grown r1 r3 (tr1 ++ tr2).
Proof.
  unfold grown, names_in.
  intros (Ha & Hp & Hu & Hn) (Ha' & Hp' & Hu' & Hn').
  rewrite !filter_app, !fmap_app, !app_assoc.
  rewrite Ha', Hp', Hu', Hn', Ha, Hp, Hu. done.
Qed.

Lemma scan_loop_spec (self : scanner) (tables : list string)
    (results : scan_results) (st : state World) :
  ∃ res st',
    for_each tables (scan_one requests_get self) results st = (Ok res, st') ∧
    sent st' = sent st ++ (probe_request self <$> tables) ∧
    grown results res (probe_trace requests_get self tables (world st)).
Proof.
  revert results st. induction tables as [|t ts IH]; intros results st.
  - exists results, st. simpl. rewrite app_nil_r.
    split; [done|]. split; [done|].
    unfold grown, names_in. simpl. by rewrite !app_nil_r.
  - simpl. unfold bind. rewrite scan_one_spec.
    destruct (requests_get (probe_request self t) (world st)) as [r w] eqn:Er.
    simpl.
    destruct (IH (record_entry t (probe_dict r) results)
                 {| world := w; sent := sent st ++ [probe_request self t] |})
      as (res & st' & Hrun & Hsent & Hgrown).
    exists res, st'. split; [done|]. split.
    + rewrite Hsent. simpl. by rewrite <- app_assoc.
    + simpl in Hgrown.
      apply (grown_trans _ _ _ [(t, class_of_transport r)] _
               (record_entry_grown t r results) Hgrown).
Qed.

(** A scan pass never raises; it sends one probe per candidate, in order,
    and its buckets hold the candidates by class, the 404 ones nowhere. *)
Lemma comprehensive_table_scan_spec (self : scanner) (st : state World) :
  ∃ res st',
    comprehensive_table_scan requests_get self st = (Ok res, st') ∧
    sent st' = sent st ++ (probe_request self <$> common_tables self) ∧
    grown empty_results res
      (probe_trace requests_get self (common_tables self) (world st)).
Proof.
  unfold comprehensive_table_scan.
  rewrite for_each_concat, concat_batches.
  apply scan_loop_spec.
Qed.

(** The discovery never raises and probes its guesses in order, whatever
    was probed before. *)
Lemma intelligent_table_discovery_spec (self : scanner) (st : state World) :
  ∃ confirmed st',
    intelligent_table_discovery requests_get self st = (Ok confirmed, st') ∧
    sent st' = sent st ++ (probe_request self <$> intelligent_guesses) ∧
    confirmed =
      names_in Accessible
        (probe_trace requests_get self intelligent_guesses (world st)).
Proof.
  unfold intelligent_table_discovery.
  assert (Hloop : ∀ (l : list string) (acc : list string) (st : state World),
    ∃ st',
      for_each l
        (λ (confirmed_tables : list string) (table : string),
           result <- check_table_exists requests_get self table ;;
           c <- exists_and result id ;;
           if c : bool then ret (confirmed_tables ++ [table])%list
           else ret confirmed_tables) acc st =
        (Ok (acc ++ names_in Accessible
               (probe_trace requests_get self l (world st))), st') ∧
      sent st' = sent st ++ (probe_request self <$> l)).
  { clear st. induction l as [|t ts IH]; intros acc st.
    - exists st. simpl. by rewrite !app_nil_r.
    - simpl. unfold bind at 1 2. rewrite check_table_exists_spec.
      destruct (requests_get (probe_request self t) (world st))
        as [r w] eqn:Er. simpl.
      assert (Hc : ∀ s0 : state World,
        exists_and (probe_dict r) id s0 =
        (Ok (bool_decide (class_of_transport r = Accessible)), s0)).
      { intros s0. unfold exists_and, probe_dict, class_of_transport.
        destruct r as [resp|e]; [|done].
        repeat case_decide; try destruct (resp_json resp); done. }
      unfold bind at 1. rewrite Hc. unfold names_in. simpl.
      case_bool_decide as Hcl.
      + unfold ret at 1.
        destruct (IH (acc ++ [t])
          {| world := w; sent := sent st ++ [probe_request self t] |})
          as (st' & Hrun & Hsent).
        exists st'. rewrite Hrun, Hsent. simpl.
        rewrite filter_cons_True by done. simpl.
        by rewrite <- !app_assoc.
      + unfold ret at 1.
        destruct (IH acc
          {| world := w; sent := sent st ++ [probe_request self t] |})
          as (st' & Hrun & Hsent).
        exists st'. rewrite Hrun, Hsent. simpl.
        rewrite filter_cons_False by done.
        by rewrite <- !app_assoc. }
  destruct (Hloop intelligent_guesses [] st) as (st' & Hrun & Hsent).
  eexists _, st'. split; [exact Hrun|]. split; [exact Hsent | done].
Qed.

End WithTransport.

Lemma probe_trace_always (code : Z) (self : scanner) (tables : list string)
    (w : unit) :
  probe_trace (always code) self tables w =
  (λ t, (t, class_of_transport (always code (probe_request self t) w).1))
    <$> tables.
Proof.
  induction tables as [|t ts IH]; simpl; [done|]. by rewrite IH.
Qed.

End ScanFacts.

(** ** Claims about the probe, the scan and the discovery *)

Module ScanClaims.
Import PyStr PyVal Net Generator Scanner Outcome.
Import GeneratorFacts ProbeFacts ScanFacts.

Lemma names_in_always (code : Z) (c : outcome) (self : scanner)
    (tables : list string) (w : unit) :
  c ≠ class_of_transport (always code (probe_request self "") w).1 →
  names_in c (probe_trace (always code) self tables w) = [].
Proof.
  intros Hc. rewrite probe_trace_always. unfold names_in.
  induction tables as [|t ts IH]; [done|].
  rewrite fmap_cons, filter_cons_False; [exact IH|].
  simpl. intros <-. by apply Hc.
Qed.

Lemma bucket_names_nil (b : list pydict) : bucket_names b = [] → b = [].
Proof. by destruct b. Qed.

(** C1, on the code: a candidate whose probe answers 404 is recorded in no
    bucket. The scanner built by [__init__] has the candidate "users"; run
    against a transport that answers 404 to everything, its scan pass
    returns four empty buckets. *)
Theorem C1_not_found_candidates_dropped :
  let self := @init canonical_order
                "https://example.supabase.co/rest/v1/" "key" "token" in
  "users" ∈ common_tables self ∧
  (comprehensive_table_scan (always 404) self start).1 = Ok empty_results.
Proof.
  intros self. split.
  - unfold self, init, common_tables.
    apply (@elem_of_generate canonical_order).
    apply (@variations_of_seed canonical_order).
    unfold initial_common_tables. left.
  - destruct (comprehensive_table_scan_spec (always 404) self start)
      as (res & st' & Hrun & _ & Ha & Hp & Hu & Hn).
    rewrite Hrun. simpl. f_equal.
    rewrite names_in_always in Ha by done.
    rewrite names_in_always in Hp by done.
    rewrite names_in_always in Hu by done.
    simpl in Ha, Hp, Hu, Hn.
    apply bucket_names_nil in Ha, Hp, Hu.
    destruct res; simpl in *; by subst.
Qed.



(** C7, as stated, fails: a 200 answer whose body is the JSON object
    {"message": "denied"}, which is not a record collection, is classified
    Accessible; [json()] parsed it and the code asks no more. *)
Lemma C7_object_body_is_accessible :
  ¬ (∀ d,
       (check_table_exists
          (answering 200 (VDict [("message", VStr "denied")]))
          demo "users" start).1 = Ok d →
       record_collection (VDict [("message", VStr "denied")]) = false →
       classify d ≠ Some Accessible).
Proof.
  intros Hall. apply (Hall _ eq_refl); [reflexivity|]. by vm_compute.
Qed.

(** C7, amended: the probe is classified Accessible exactly when the
    transport answered with status 200 and [json()] parsed the body,
    whatever JSON value the body is (it is kept as 'sample_data' and not
    checked to be a list of records); a 200 answer whose body [json()]
    cannot parse is Indeterminate, never Accessible. *)
Theorem C7_accessible_iff_200_and_parsed {World : Type}
    (requests_get : request → World → result response * World)
    (self : scanner) (name : string) (st : state World) :
  let r := (requests_get (probe_request self name) (world st)).1 in
  ∃ d,
    (check_table_exists requests_get self name st).1 = Ok d ∧
    (classify d = Some Accessible ↔
       ∃ resp data, r = Ok resp ∧ status_code resp = 200%Z ∧
                    resp_json resp = Ok data) ∧
    (∀ resp data, r = Ok resp → status_code resp = 200%Z →
       resp_json resp = Ok data →
       classify d = Some Accessible ∧
       dict_lookup "sample_data" d = Some data) ∧
    (∀ resp e, r = Ok resp → status_code resp = 200%Z →
       resp_json resp = Raise e →
       classify d = Some Indeterminate ∧
       dict_lookup "accessible" d = Some (VBool false)).
Proof.
  intros r. exists (probe_dict r). unfold r.
  rewrite check_table_exists_spec. simpl. split; [done|].
  rewrite classify_probe_dict.
  destruct (requests_get _ _) as [[resp|e] w]; simpl.
  - split; [|split].
    + split.
      * intros Hc. exists resp. repeat case_decide; try done.
        destruct (resp_json resp) as [data|]; [|done]. by exists data.
      * intros (resp' & data & [= <-] & Hs & Hj).
        rewrite decide_True by done. by rewrite Hj.
    + intros resp' data [= <-] Hs Hj. unfold probe_dict.
      rewrite !decide_True by done. by rewrite Hj.
    + intros resp' e [= <-] Hs Hj. unfold probe_dict.
      rewrite !decide_True by done. by rewrite Hj.
  - split; [|split].
    + split; [done|]. by intros (resp & data & [=] & _).
    + by intros resp data [=].
    + by intros resp e' [=].
Qed.

(** C9: whatever the transport does, [check_table_exists] returns a
    dictionary with the keys 'exists', 'accessible' and 'status_code' and
    raises nothing; when the transport raised (a timeout or another
    exception) 'exists' is [None], 'status_code' is 0 and 'error' is a
    string. *)
Theorem C9_check_table_exists_total {World : Type}
    (requests_get : request → World → result response * World)
    (self : scanner) (name : string) (st : state World) :
  let r := (requests_get (probe_request self name) (world st)).1 in
  ∃ d,
    (check_table_exists requests_get self name st).1 = Ok d ∧
    is_Some (dict_lookup "exists" d) ∧
    is_Some (dict_lookup "accessible" d) ∧
    is_Some (dict_lookup "status_code" d) ∧
    (∀ e, r = Raise e →
       dict_lookup "exists" d = Some VNone ∧
       dict_lookup "status_code" d = Some (VInt 0) ∧
       dict_lookup "error" d =
         Some (VStr (if is_timeout e then "Timeout" else str_exn e))).
Proof.
  intros r. exists (probe_dict r). unfold r.
  rewrite check_table_exists_spec. simpl. split; [done|].
  destruct (requests_get _ _) as [[resp|e] w]; simpl.
  - split_and!; try (by intros e [=]).
    all: repeat case_decide; try destruct (resp_json resp); by eexists.
  - split_and!; try by eexists.
    by intros e' [= <-].
Qed.

(** C10: at the end of every scan pass the 'not_found' bucket is empty; a
    candidate whose probe answers 404 leaves the results as they were. *)
Theorem C10_not_found_always_empty {World : Type}
    (requests_get : request → World → result response * World)
    (self : scanner) (st : state World) :
  (∃ res, (comprehensive_table_scan requests_get self st).1 = Ok res ∧
          not_found res = []) ∧
  (∀ results name st0 resp,
     (requests_get (probe_request self name) (world st0)).1 = Ok resp →
     status_code resp = 404%Z →
     (scan_one requests_get self results name st0).1 = Ok results).
Proof.
  split.
  - destruct (comprehensive_table_scan_spec requests_get self st)
      as (res & st' & Hrun & _ & _ & _ & _ & Hn).
    exists res. by rewrite Hrun.
  - intros results name st0 resp Hr Hs.
    rewrite scan_one_spec. simpl. rewrite Hr. f_equal.
    unfold record_entry. rewrite classify_probe_dict.
    unfold class_of_transport. rewrite Hs. done.
Qed.

(** C6, as stated, fails: in a run of the scanner built by [__init__], the
    scan pass probes "users", and the discovery that follows probes
    "users" again. *)
Lemma C6_users_probed_twice :
  let self := @init canonical_order
                "https://example.supabase.co/rest/v1/" "key" "token" in
  let st1 := (comprehensive_table_scan (always 404) self start).2 in
  let st2 := (intelligent_table_discovery (always 404) self st1).2 in
  probe_request self "users" ∈ sent st1 ∧
  probe_request self "users" ∈ drop (length (sent st1)) (sent st2).
Proof.
  intros self st1 st2.
  assert (Hin : "users" ∈ common_tables self).
  { unfold self, init, common_tables.
    apply (@elem_of_generate canonical_order).
    apply (@variations_of_seed canonical_order).
    unfold initial_common_tables. left. }
  clearbody self.
  destruct (comprehensive_table_scan_spec (always 404) self start)
    as (res & s1 & Hrun & Hsent & _).
  assert (Hs1 : st1 = s1) by (unfold st1; by rewrite Hrun).
  clearbody st1. subst s1.
  destruct (intelligent_table_discovery_spec (always 404) self st1)
    as (conf & s2 & Hrun2 & Hsent2 & _).
  assert (Hs2 : st2 = s2) by (unfold st2; by rewrite Hrun2).
  clearbody st2. subst s2.
  split.
  - rewrite Hsent. apply elem_of_app. right.
    by apply list_elem_of_fmap_2.
  - rewrite Hsent2, drop_app_length.
    apply list_elem_of_fmap_2. unfold intelligent_guesses. simpl. left.
Qed.

(** C6, amended: the discovery keeps no record of what the run has already
    probed. From every state it probes each of its sixteen guesses once,
    in list order, and returns those whose probe was Accessible. *)
Theorem C6_discovery_probes_every_guess {World : Type}
    (requests_get : request → World → result response * World)
    (self : scanner) (st : state World) :
  ∃ confirmed st',
    intelligent_table_discovery requests_get self st = (Ok confirmed, st') ∧
    sent st' = sent st ++ (probe_request self <$> intelligent_guesses) ∧
    NoDup intelligent_guesses ∧
    length intelligent_guesses = 16 ∧
    confirmed =
      names_in Accessible
        (probe_trace requests_get self intelligent_guesses (world st)).
Proof.
  destruct (intelligent_table_discovery_spec requests_get self st)
    as (conf & st' & Hrun & Hsent & Hconf).
  exists conf, st'. split_and!; try done.
  apply (bool_decide_unpack _). by vm_compute.
Qed.

End ScanClaims.

(** ** Properties of the schema inference *)

Module SchemaFacts.
Import PyStr PyVal Net Scanner Schema.

Lemma dict_lookup_set_eq (k : string) (v : value) (d : pydict) :
  dict_lookup k (dict_set k v d) = Some v.
Proof.
  induction d as [|[k' v'] d IH]; simpl.
  - by rewrite decide_True.
  - case_decide; simpl; [by rewrite decide_True | by rewrite decide_False].
Qed.

Lemma dict_lookup_set_ne (k k' : string) (v : value) (d : pydict) :
  k ≠ k' → dict_lookup k' (dict_set k v d) = dict_lookup k' d.
Proof.
  intros Hne. induction d as [|[k0 v0] d IH]; simpl.
  - by rewrite decide_False.
  - destruct (decide (k = k0)) as [<-|]; simpl.
    + by rewrite !decide_False.
    + by rewrite IH.
Qed.

Lemma dict_lookup_is_Some (k : string) (d : pydict) :
  is_Some (dict_lookup k d) ↔ k ∈ dict_keys d.
Proof.
  unfold dict_keys. induction d as [|[k' v'] d IH]; simpl.
  - split; [by intros [? [=]] | by intros ?%elem_of_nil].
  - case_decide as Hk.
    + subst. split; [left | by eexists].
    + rewrite IH, elem_of_cons. split; [by right|].
      by intros [?|?].
Qed.

Lemma max_from_spec (key : string → nat) (best : string) (l : list string) :
  max_from key best l ∈ best :: l ∧
  ∀ x, x ∈ best :: l → key x ≤ key (max_from key best l).
Proof.
  revert best. induction l as [|y l IH]; intros best; simpl.
  - split; [left|]. by intros x ->%list_elem_of_singleton.
  - case_decide as Hlt.
    + destruct (IH y) as [Hin Hmax]. split.
      * right. exact Hin.
      * intros x [->|Hx]%elem_of_cons.
        -- specialize (Hmax y (list_elem_of_here _ _)). lia.
        -- by apply Hmax.
    + destruct (IH best) as [Hin Hmax]. split.
      * apply elem_of_cons in Hin as [Hin|Hin];
          [rewrite Hin; left | by do 2 right].
      * intros x [->|[->|Hx]%elem_of_cons]%elem_of_cons.
        -- apply Hmax. left.
        -- specialize (Hmax best (list_elem_of_here _ _)). lia.
        -- apply Hmax. by right.
Qed.

Lemma count_not_in (l : list string) (x : string) : x ∉ l → count l x = 0.
Proof.
  unfold count. induction l as [|y l IH]; [done|].
  intros Hx. apply not_elem_of_cons in Hx as [Hne Hx].
  rewrite filter_cons_False by done. by apply IH.
Qed.

Lemma collect_samples_dicts (col : string) (rows : list pydict) :
  collect_samples col (VDict <$> rows) =
  Ok (non_null (dict_get col <$> rows)).
Proof.
  unfold non_null.
  induction rows as [|d rows IH]; [done|].
  change (collect_samples col (VDict <$> d :: rows)) with
    (match collect_samples col (VDict <$> rows) with
     | Ok vs => Ok (if is_none (dict_get col d) then vs
                    else dict_get col d :: vs)
     | Raise e => Raise e
     end).
  rewrite IH, fmap_cons. destruct (is_none (dict_get col d)) eqn:E.
  - rewrite filter_cons_False; [done | by rewrite E].
  - by rewrite filter_cons_True.
Qed.

Section WithOrder.
Context `{SetOrder}.

Lemma column_entry_ok (sample_values : list value) :
  ∃ t, column_entry sample_values =
         Ok [("type", VStr t);
             ("sample_values", VList (take 3 sample_values))] ∧
       dominant t sample_values.
Proof.
  unfold column_entry, dominant.
  destruct sample_values as [|v vs].
  - exists "unknown". split; [done|]. by left.
  - cbn [truthy].
    set (types := type_name <$> v :: vs).
    assert (Hne : type_name v ∈ set_iter (list_to_set types : gset string)).
    { apply elem_of_set_iter, elem_of_list_to_set.
      subst types. rewrite fmap_cons. left. }
    destruct (set_iter (list_to_set types : gset string)) as [|x l] eqn:El;
      [by apply elem_of_nil in Hne|].
    cbn [py_max].
    destruct (max_from_spec (count types) x l) as [Hin Hmax].
    exists (max_from (count types) x l). split; [done|]. right.
    split; [done|].
    rewrite <- El in Hin, Hmax.
    apply elem_of_set_iter, elem_of_list_to_set in Hin.
    split; [exact Hin|]. intros t'.
    destruct (decide (t' ∈ types)) as [Ht'|Ht'].
    + apply Hmax. by apply elem_of_set_iter, elem_of_list_to_set.
    + rewrite (count_not_in _ _ Ht'). lia.
Qed.

Lemma fill_column_info_spec (rows : list pydict) (columns : list string)
    (info : pydict) :
  ∃ info',
    fill_column_info (VDict <$> rows) columns info = Ok info' ∧
    ∀ c, (c ∈ columns →
            ∃ t, dict_lookup c info' =
                   Some (VDict [("type", VStr t);
                                ("sample_values",
                                 VList (take 3 (samples_of c rows)))]) ∧
                 dominant t (samples_of c rows)) ∧
         (c ∉ columns → dict_lookup c info' = dict_lookup c info).
Proof.
  revert info. induction columns as [|col columns IH]; intros info.
  - exists info. split; [done|]. intros c. split; [by intros ?%elem_of_nil|done].
  - cbn [fill_column_info].
    rewrite <- fmap_take, collect_samples_dicts.
    change (non_null (dict_get col <$> take 5 rows))
      with (samples_of col rows).
    destruct (column_entry_ok (samples_of col rows)) as (t & -> & Hdom).
    destruct (IH (dict_set col
        (VDict [("type", VStr t);
                ("sample_values", VList (take 3 (samples_of col rows)))])
        info)) as (info' & Hrun & Hinfo).
    exists info'. split; [exact Hrun|].
    intros c. split.
    + intros Hc. destruct (decide (c ∈ columns)) as [Hin|Hnin].
      * by apply Hinfo.
      * apply elem_of_cons in Hc as [->|Hc]; [|done].
        exists t. split; [|done].
        destruct (Hinfo col) as [_ Heq]. rewrite Heq by done.
        apply dict_lookup_set_eq.
    + intros Hc. apply not_elem_of_cons in Hc as [Hne Hc].
      destruct (Hinfo c) as [_ Heq]. rewrite Heq by done.
      by apply dict_lookup_set_ne.
Qed.

(** The analysis of a non-empty list of dictionaries. *)
Lemma analyze_rows (d0 : pydict) (rest : list pydict) :
  ∃ info,
    analyze (VList (VDict <$> d0 :: rest)) =
      Ok [("success", VBool true);
          ("columns", VList (VStr <$> dict_keys d0));
          ("column_info", VDict info);
          ("sample_count", VInt (Z.of_nat (length (d0 :: rest))));
          ("sample_data", VList (VDict <$> d0 :: rest))] ∧
    (∀ c, is_Some (dict_lookup c info) ↔ c ∈ dict_keys d0) ∧
    (∀ c, c ∈ dict_keys d0 →
       ∃ t, dict_lookup c info =
              Some (VDict [("type", VStr t);
                           ("sample_values",
                            VList (take 3 (samples_of c (d0 :: rest))))]) ∧
            dominant t (samples_of c (d0 :: rest))).
Proof.
  destruct (fill_column_info_spec (d0 :: rest) (dict_keys d0) [])
    as (info & Hrun & Hinfo).
  exists info. split; [|split].
  - unfold analyze. rewrite fmap_cons. cbn [truthy]. cbv beta iota zeta.
    rewrite fmap_cons in Hrun. rewrite Hrun.
    by rewrite length_cons, length_fmap.
  - intros c. split.
    + intros Hsome. destruct (decide (c ∈ dict_keys d0)) as [|Hn]; [done|].
      destruct (Hinfo c) as [_ Heq]. rewrite Heq in Hsome by done.
      by destruct Hsome as [? [=]].
    + intros Hc. destruct (Hinfo c) as [Hex _].
      destruct (Hex Hc) as (t & -> & _). by eexists.
  - intros c Hc. by apply Hinfo.
Qed.

End WithOrder.
End SchemaFacts.

(** ** Claims about the schema inference *)

Module SchemaClaims.
Import PyStr PyVal Net Scanner Schema SchemaFacts.

(** C5, as stated, fails: a field that first occurs in a later row gets no
    summary. For the rows [{"id":1},{"id":2,"name":"b"}] the field "name"
    is observed in the sample and [column_info] has no entry for it. *)
Lemma C5_field_of_later_row_not_summarised :
  ¬ (∀ col, observed col late_field_rows →
       ∃ info,
         column_info_of
           (@analyze canonical_order (VList (VDict <$> late_field_rows))) =
           Some info ∧
         is_Some (dict_lookup col info)).
Proof.
  intros Hall. destruct (Hall "name") as (info & Hinfo & Hsome).
  - exists [("id", VInt 2); ("name", VStr "b")]. split.
    + unfold late_field_rows. right. left.
    + unfold dict_keys. simpl. right. left.
  - vm_compute in Hinfo. injection Hinfo as <-.
    vm_compute in Hsome. by destruct Hsome as [? [=]].
Qed.

(** C5, amended: the inference produces one summary for each field name of
    the first sampled row, and for no other name. The type vote uses the
    non-null values of the field in the first five rows, the first three of
    which are kept as examples; a field with no such value has type
    "unknown" and no examples. A summary has the keys 'type' and
    'sample_values' only: no populated flag is computed. For the rows
    [{"id":1,"name":"a"},{"id":2,"name":"b"},{"id":3}], "id" has type int
    with examples [1,2,3] and "name" has type str with examples ["a","b"]. *)
Theorem C5_schema_from_first_row_columns `{SetOrder} :
  (∀ d0 rest,
     ∃ info,
       analyze (VList (VDict <$> d0 :: rest)) =
         Ok [("success", VBool true);
             ("columns", VList (VStr <$> dict_keys d0));
             ("column_info", VDict info);
             ("sample_count", VInt (Z.of_nat (length (d0 :: rest))));
             ("sample_data", VList (VDict <$> d0 :: rest))] ∧
       (∀ c, is_Some (dict_lookup c info) ↔ c ∈ dict_keys d0) ∧
       (∀ c, c ∈ dict_keys d0 →
          ∃ t, dict_lookup c info =
                 Some (VDict [("type", VStr t);
                              ("sample_values",
                               VList (take 3 (samples_of c (d0 :: rest))))]) ∧
               dominant t (samples_of c (d0 :: rest)))) ∧
  (∃ info,
     column_info_of (analyze (VList (VDict <$> sample_rows))) = Some info ∧
     dict_lookup "id" info =
       Some (VDict [("type", VStr "int");
                    ("sample_values", VList [VInt 1; VInt 2; VInt 3])]) ∧
     dict_lookup "name" info =
       Some (VDict [("type", VStr "str");
                    ("sample_values", VList [VStr "a"; VStr "b"])])).
Proof.
  split; [intros d0 rest; apply analyze_rows|].
  set (d0 := [("id", VInt 1); ("name", VStr "a")] : pydict).
  set (rest := [[("id", VInt 2); ("name", VStr "b")]; [("id", VInt 3)]]
               : list pydict).
  change sample_rows with (d0 :: rest).
  destruct (analyze_rows d0 rest) as (info & Hrun & _ & Hcols).
  exists info. rewrite Hrun. split; [done|]. split.
  - destruct (Hcols "id") as (t & Hl & Hdom).
    { unfold dict_keys. simpl. left. }
    rewrite Hl. vm_compute in Hdom.
    destruct Hdom as [[[=] _] | (_ & Ht & _)].
    repeat (apply elem_of_cons in Ht as [->|Ht]; [done|]).
    by apply elem_of_nil in Ht.
  - destruct (Hcols "name") as (t & Hl & Hdom).
    { unfold dict_keys. simpl. right. left. }
    rewrite Hl. vm_compute in Hdom.
    destruct Hdom as [[[=] _] | (_ & Ht & _)].
    repeat (apply elem_of_cons in Ht as [->|Ht]; [done|]).
    by apply elem_of_nil in Ht.
Qed.

End SchemaClaims.

(** ** Further properties of the generator *)

Module GeneratorExtra.
Import PyStr Generator GeneratorFacts.

Lemma app_cons (c : ascii) (a b : string) :
  String c a +:+ b = String c (a +:+ b).
Proof. reflexivity. Qed.

Lemma substring_all (s : string) : String.substring 0 (String.length s) s = s.
Proof. induction s as [|c s IH]; simpl; [done | by rewrite IH]. Qed.

Lemma substring_app_r (p suf : string) :
  String.substring (String.length p) (String.length suf) (p +:+ suf) = suf.
Proof.
  induction p as [|c p IH]; [apply substring_all|].
  rewrite app_cons. exact IH.
Qed.

Lemma substring_app_l (p suf : string) :
  String.substring 0 (String.length p) (p +:+ suf) = p.
Proof.
  induction p as [|c p IH]; [by destruct suf|].
  rewrite app_cons. simpl. by rewrite IH.
Qed.

Lemma substring_split (s : string) (i : nat) :
  i ≤ String.length s →
  s = String.substring 0 i s +:+
      String.substring i (String.length s - i) s.
Proof.
  revert i. induction s as [|c s IH]; intros i Hi; simpl in *.
  - by destruct i.
  - destruct i as [|i]; simpl.
    + by rewrite substring_all.
    + rewrite app_cons. f_equal. apply IH. lia.
Qed.

(** [s.endswith(suf)] holds exactly when [s] is some string followed by
    [suf]. *)
Lemma endswith_spec (s suf : string) :
  endswith s suf = true ↔ ∃ p, s = p +:+ suf.
Proof.
  unfold endswith. rewrite andb_true_iff, !bool_decide_eq_true. split.
  - intros [Hle Hsub].
    exists (String.substring 0 (String.length s - String.length suf) s).
    pose proof (substring_split s (String.length s - String.length suf))
      as Hs.
    replace (String.length s - (String.length s - String.length suf))
      with (String.length suf) in Hs by lia.
    rewrite Hsub in Hs. apply Hs. lia.
  - intros [p ->]. rewrite length_app. split; [lia|].
    replace (String.length p + String.length suf - String.length suf)
      with (String.length p) by lia.
    apply substring_app_r.
Qed.

Lemma drop_last_app (p suf : string) :
  drop_last (String.length suf) (p +:+ suf) = p.
Proof.
  unfold drop_last. rewrite length_app.
  replace (String.length p + String.length suf - String.length suf)
    with (String.length p) by lia.
  apply substring_app_l.
Qed.

Lemma app_inj_r (p q suf : string) : p +:+ suf = q +:+ suf → p = q.
Proof.
  intros Heq.
  rewrite <- (drop_last_app p suf), <- (drop_last_app q suf). by rewrite Heq.
Qed.

Lemma app_assoc_str (a b c : string) : (a +:+ b) +:+ c = a +:+ (b +:+ c).
Proof.
  induction a as [|x a IH]; [done|]. rewrite !app_cons. by rewrite IH.
Qed.

(** X1: the singular rule. A name gets a singular form in two cases only:
    it has more than three characters and ends in "s", and the form is the
    name without that "s"; or it is the three-letter name "ies", and the
    form is "y". No other name ending in "ies" is rewritten to "y". *)
Theorem singular_of_spec (table s : string) :
  singular_of table = Some s ↔
  (table = s +:+ "s" ∧ 3 ≤ String.length s) ∨ (table = "ies" ∧ s = "y").
Proof.
  unfold singular_of.
  destruct (endswith table "s") eqn:Es.
  - apply endswith_spec in Es as [p ->].
    rewrite (drop_last_app p "s" : drop_last 1 (p +:+ "s") = p).
    rewrite andb_true_l, length_app.
    change (String.length "s") with 1.
    case_bool_decide as Hlen.
    + split.
      * intros [= ->]. left. split; [done | lia].
      * intros [[Heq _] | [Heq _]].
        -- by apply app_inj_r in Heq as ->.
        -- exfalso. change "ies" with ("ie" +:+ "s") in Heq.
           apply app_inj_r in Heq as ->. simpl in Hlen. lia.
    + destruct (endswith (p +:+ "s") "ies") eqn:Ei.
      * apply endswith_spec in Ei as [q Hq].
        change "ies" with ("ie" +:+ "s") in Hq.
        rewrite <- app_assoc_str in Hq. apply app_inj_r in Hq as ->.
        rewrite length_app in Hlen. change (String.length "ie") with 2 in Hlen.
        destruct q as [|c q]; [|simpl in Hlen; lia].
        split.
        -- intros [= <-]. by right.
        -- intros [[Heq Hl] | [_ ->]]; [|done].
           change ("" +:+ "ie") with "ie" in Heq.
           apply app_inj_r in Heq as <-. simpl in Hl. lia.
      * split; [done|]. intros [[Heq Hl] | [Heq ->]].
        -- apply app_inj_r in Heq as ->. lia.
        -- exfalso. change "ies" with ("ie" +:+ "s") in Heq.
           apply app_inj_r in Heq as ->. by vm_compute in Ei.
  - rewrite andb_false_l. destruct (endswith table "ies") eqn:Ei.
    + apply endswith_spec in Ei as [q ->].
      assert (endswith (q +:+ "ies") "s" = true); [|congruence].
      apply endswith_spec. exists (q +:+ "ie").
      by rewrite app_assoc_str.
    + split; [done|]. intros [[-> _] | [-> _]].
      * assert (endswith (s +:+ "s") "s" = true); [|congruence].
        apply endswith_spec. by exists s.
      * by vm_compute in Es.
Qed.


Lemma ascii_compare_le_trans (a b c : ascii) :
  Ascii.compare a b ≠ Gt → Ascii.compare b c ≠ Gt → Ascii.compare a c ≠ Gt.
Proof.
  unfold Ascii.compare. rewrite !N.compare_le_iff. lia.
Qed.

Lemma compare_le_trans (a b c : string) :
  String.compare a b ≠ Gt → String.compare b c ≠ Gt →
  String.compare a c ≠ Gt.
Proof.
  revert b c. induction a as [|x a IH]; intros b c Hab Hbc.
  - by destruct c.
  - destruct b as [|y b]; [done|]. destruct c as [|z c]; [done|].
    simpl in *.
    destruct (Ascii.compare x y) eqn:Exy; [|clear Hab|done].
    + apply Ascii.compare_eq_iff in Exy as ->.
      destruct (Ascii.compare y z); [by eapply IH | done | done].
    + destruct (Ascii.compare y z) eqn:Eyz; [|clear Hbc|done].
      * apply Ascii.compare_eq_iff in Eyz as <-. by rewrite Exy.
      * assert (Hxz : Ascii.compare x z = Lt); [|by rewrite Hxz].
        revert Exy Eyz. unfold Ascii.compare.
        rewrite !N.compare_lt_iff. lia.
Qed.

#[global] Instance str_le_trans : Transitive str_le.
Proof.
  intros a b c. unfold str_le, String.leb. intros Hab Hbc.
  pose proof (compare_le_trans a b c) as Ht.
  destruct (String.compare a b); try done;
    destruct (String.compare b c); try done;
    destruct (String.compare a c); try done;
    exfalso; by apply Ht.
Qed.

(** The names a pass over a list of affixes produces: a name of the set
    the pass starts from, transformed by a subsequence of the affixes, in
    list order. *)
Lemma elem_of_foldl_add_all `{SetOrder} (g : string → string → string)
    (l : list string) (X : gset string) (x : string) :
  x ∈ foldl (λ vs a, add_all (g a) vs) X l ↔
  ∃ t picked, t ∈ X ∧ sublist picked l ∧
              x = foldl (λ acc a, g a acc) t picked.
Proof.
  revert X. induction l as [|a l IH]; intros X; simpl.
  - split.
    + intros Hx. exists x, []. by split.
    + intros (t & picked & Ht & Hsub & ->).
      by apply sublist_nil_r in Hsub as ->.
  - rewrite IH. split.
    + intros (t & picked & Ht & Hsub & ->).
      apply elem_of_add_all in Ht as [Ht | (t0 & Ht0 & ->)].
      * exists t, picked. split; [done|]. split; [by apply sublist_cons|done].
      * exists t0, (a :: picked). split; [done|].
        split; [by apply sublist_skip|done].
    + intros (t & picked & Ht & Hsub & ->).
      apply sublist_cons_r in Hsub as [Hsub | (picked' & -> & Hsub)].
      * exists t, picked. split; [by apply add_all_mono|done].
      * exists (g a t), picked'. split; [by apply add_all_image|done].
Qed.

Lemma elem_of_variations_of `{SetOrder} (seeds : list string) (x : string) :
  x ∈ variations_of seeds ↔
  ∃ base ps ss,
    (base ∈ seeds ∨ ∃ t, t ∈ seeds ∧ singular_of t = Some base) ∧
    sublist ps prefixes ∧ sublist ss suffixes ∧
    x = foldl (λ acc s, acc +:+ s) (foldl (λ acc p, p +:+ acc) base ps) ss.
Proof.
  unfold variations_of, add_suffixes, add_prefixes.
  rewrite (elem_of_foldl_add_all (λ s t, t +:+ s)).
  split.
  - intros (t & ss & Ht & Hss & ->).
    apply (elem_of_foldl_add_all (λ p t, p +:+ t)) in Ht
      as (b & ps & Hb & Hps & ->).
    exists b, ps, ss. split; [|done].
    apply elem_of_add_singulars in Hb as [Hb|Hb]; [left|by right].
    by apply elem_of_list_to_set in Hb.
  - intros (b & ps & ss & Hb & Hps & Hss & ->).
    exists (foldl (λ acc p, p +:+ acc) b ps), ss. split; [|done].
    apply (elem_of_foldl_add_all (λ p t, p +:+ t)).
    exists b, ps. split; [|done].
    apply elem_of_add_singulars. destruct Hb as [Hb|Hb]; [left|by right].
    by apply elem_of_list_to_set.
Qed.

(** X2: the generated names, exactly. A name is generated if and only if
    it is a seed or the singular of a seed, with the prefixes of some
    subsequence of the prefix list put in front (the later prefix
    outermost) and the suffixes of some subsequence of the suffix list
    appended in order. *)
Theorem generate_characterised `{SetOrder} (seeds : list string)
    (x : string) :
  x ∈ generate_table_variations seeds ↔
  ∃ base ps ss,
    (base ∈ seeds ∨ ∃ t, t ∈ seeds ∧ singular_of t = Some base) ∧
    sublist ps prefixes ∧ sublist ss suffixes ∧
    x = foldl (λ acc s, acc +:+ s) (foldl (λ acc p, p +:+ acc) base ps) ss.
Proof. rewrite elem_of_generate. apply elem_of_variations_of. Qed.

Lemma variations_of_order (o1 o2 : SetOrder) (seeds : list string) :
  @variations_of o1 seeds = @variations_of o2 seeds.
Proof.
  apply set_eq. intros x.
  by rewrite (@elem_of_variations_of o1), (@elem_of_variations_of o2).
Qed.

(** X3: the generated list is in ascending order and is the same for every
    order in which Python may iterate over the sets involved. *)
Theorem generate_sorted_order_independent (o1 o2 : SetOrder)
    (seeds : list string) :
  Sorted str_le (@generate_table_variations o1 seeds) ∧
  @generate_table_variations o1 seeds = @generate_table_variations o2 seeds.
Proof.
  unfold generate_table_variations, sorted. split.
  - apply (Sorted_merge_sort str_le).
  - apply (Sorted_unique str_le);
      [apply (Sorted_merge_sort str_le) .. |].
    rewrite !merge_sort_Permutation, !set_iter_perm.
    by rewrite (variations_of_order o1 o2).
Qed.

Lemma size_add_one (y : string) (X : gset string) :
  size ({[ y ]} ∪ X) ≤ 1 + size X.
Proof.
  rewrite size_union_alt, size_singleton.
  assert (size (X ∖ {[ y ]}) ≤ size X); [|lia].
  apply subseteq_size. apply subseteq_difference_l. done.
Qed.

Lemma size_foldl_add (f : string → string) (l : list string)
    (X : gset string) :
  size (foldl (λ vs t, {[ f t ]} ∪ vs) X l) ≤ size X + length l.
Proof.
  revert X. induction l as [|t l IH]; intros X; simpl; [lia|].
  etrans; [apply IH|]. pose proof (size_add_one (f t) X). lia.
Qed.

Lemma size_add_all `{SetOrder} (f : string → string) (X : gset string) :
  size (add_all f X) ≤ 2 * size X.
Proof.
  unfold add_all. etrans; [apply size_foldl_add|].
  rewrite set_iter_perm. change (length (elements X)) with (size X). lia.
Qed.

Lemma size_foldl_add_all `{SetOrder} (g : string → string → string)
    (l : list string) (X : gset string) :
  size (foldl (λ vs a, add_all (g a) vs) X l) ≤ 2 ^ length l * size X.
Proof.
  revert X. induction l as [|a l IH]; intros X; simpl; [lia|].
  etrans; [apply IH|]. pose proof (size_add_all (g a) X).
  pose proof (Nat.pow_nonzero 2 (length l)). nia.
Qed.

Lemma size_add_singulars (l : list string) (X : gset string) :
  size (add_singulars l X) ≤ size X + length l.
Proof.
  unfold add_singulars. revert X.
  induction l as [|t l IH]; intros X; simpl; [lia|].
  etrans; [apply IH|]. destruct (singular_of t) as [s|]; [|lia].
  pose proof (size_add_one s X). lia.
Qed.

Lemma size_list_to_set_le (l : list string) :
  size (list_to_set l : gset string) ≤ length l.
Proof.
  induction l as [|x l IH].
  - change (list_to_set [] : gset string) with (∅ : gset string).
    rewrite size_empty. simpl. lia.
  - change (list_to_set (x :: l) : gset string)
      with ({[ x ]} ∪ list_to_set l : gset string).
    pose proof (size_add_one x (list_to_set l)). simpl. lia.
Qed.

(** X4: the size of the generated list. The singular pass adds at most one
    name per seed and each of the seven prefix passes and five suffix
    passes at most doubles the set, so a vocabulary of [n] names yields at
    most [32 * (128 * (2 * n))] candidates. *)
Theorem generate_length_bound `{SetOrder} (seeds : list string) :
  length (generate_table_variations seeds) ≤
  32 * (128 * (2 * length seeds)).
Proof.
  unfold generate_table_variations, sorted.
  rewrite merge_sort_Permutation, set_iter_perm.
  change (length (elements ?X)) with (size X).
  unfold variations_of, add_suffixes, add_prefixes.
  etrans; [apply size_foldl_add_all|].
  pose proof (size_foldl_add_all (λ p t, p +:+ t) prefixes
                (add_singulars seeds (list_to_set seeds))) as Hp.
  pose proof (size_add_singulars seeds (list_to_set seeds)) as Hs.
  pose proof (size_list_to_set_le seeds) as Hl.
  change (2 ^ length suffixes) with 32.
  change (2 ^ length prefixes) with 128 in Hp. lia.
Qed.

End GeneratorExtra.

(** ** The passes of the generator *)

Module SinglePass.
Import PyStr Generator GeneratorFacts GeneratorExtra.

Lemma sublist_subseqs {A} (ps l : list A) : sublist ps l → ps ∈ subseqs l.
Proof.
  induction 1 as [|x ps l _ IH|x ps l _ IH]; simpl.
  - left.
  - apply elem_of_app. left. by apply list_elem_of_fmap_2.
  - apply elem_of_app. by right.
Qed.

Lemma affixed_in_forms (base : string) (ps ss : list string) :
  sublist ps prefixes → sublist ss suffixes →
  affixed base ps ss ∈ forms_of base.
Proof.
  intros Hps Hss. unfold forms_of.
  apply list_elem_of_bind. exists ps. split; [|by apply sublist_subseqs].
  apply list_elem_of_bind. exists ss. split; [left|by apply sublist_subseqs].
Qed.

Lemma generated_from_data `{SetOrder} (x : string) :
  x ∈ generate_table_variations ["data"] → x ∈ forms_of "data".
Proof.
  rewrite elem_of_generate, elem_of_variations_of.
  intros (base & ps & ss & Hbase & Hps & Hss & ->).
  assert (base = "data") as ->.
  { destruct Hbase as [Hb | (t & Ht & Hs)].
    - by apply list_elem_of_singleton in Hb.
    - apply list_elem_of_singleton in Ht as ->. by vm_compute in Hs. }
  by apply affixed_in_forms.
Qed.

(** C3, amended: each prefix and each suffix is applied in one pass over a
    snapshot of the set taken when that pass starts. A transform is thus
    never applied to its own output, but a later pass transforms the
    output of the earlier ones: the generated names are exactly the seeds
    and their singulars with the prefixes of a subsequence of the prefix
    list in front and the suffixes of a subsequence of the suffix list
    behind, each affix at most once. From the seed set {"data"} the list
    contains "app_data", "data_log" and "app_data_log"; it does not
    contain "app_app_data" or "data_log_log". *)
Theorem C3_one_pass_per_affix `{SetOrder} :
  (∀ seeds x,
     x ∈ generate_table_variations seeds ↔
     ∃ base ps ss,
       (base ∈ seeds ∨ ∃ t, t ∈ seeds ∧ singular_of t = Some base) ∧
       sublist ps prefixes ∧ sublist ss suffixes ∧
       x = affixed base ps ss) ∧
  "app_data" ∈ generate_table_variations ["data"] ∧
  "data_log" ∈ generate_table_variations ["data"] ∧
  "app_data_log" ∈ generate_table_variations ["data"] ∧
  ("app_app_data" ∉ generate_table_variations ["data"]) ∧
  ("data_log_log" ∉ generate_table_variations ["data"]).
Proof.
  assert (Hiff : ∀ seeds x,
     x ∈ generate_table_variations seeds ↔
     ∃ base ps ss,
       (base ∈ seeds ∨ ∃ t, t ∈ seeds ∧ singular_of t = Some base) ∧
       sublist ps prefixes ∧ sublist ss suffixes ∧
       x = affixed base ps ss).
  { intros seeds x. rewrite elem_of_generate. apply elem_of_variations_of. }
  assert (Hin : ∀ ps ss, sublist ps prefixes → sublist ss suffixes →
                  affixed "data" ps ss ∈ generate_table_variations ["data"]).
  { intros ps ss Hps Hss. apply Hiff. exists "data", ps, ss.
    split; [left; left | done]. }
  split; [exact Hiff|]. split_and!.
  - apply (Hin ["app_"] []); [|apply sublist_nil_l].
    apply sublist_skip, sublist_nil_l.
  - apply (Hin [] ["_log"]); [apply sublist_nil_l|].
    do 3 apply sublist_cons. apply sublist_skip, sublist_nil_l.
  - apply (Hin ["app_"] ["_log"]).
    + apply sublist_skip, sublist_nil_l.
    + do 3 apply sublist_cons. apply sublist_skip, sublist_nil_l.
  - intros Hx%generated_from_data. revert Hx.
    apply (bool_decide_unpack _). by vm_compute.
  - intros Hx%generated_from_data. revert Hx.
    apply (bool_decide_unpack _). by vm_compute.
Qed.

End SinglePass.

(** ** Further properties of the scan *)

Module ScanExtra.
Import PyStr PyVal Net Generator Scanner Outcome.
Import GeneratorFacts ProbeFacts ScanFacts.

Lemma probe_trace_names {World : Type}
    (requests_get : request → World → result response * World)
    (self : scanner) (tables : list string) (w : World) :
  (probe_trace requests_get self tables w).*1 = tables.
Proof.
  revert w. induction tables as [|t ts IH]; intros w; simpl; [done|].
  destruct (requests_get (probe_request self t) w) as [r w'].
  simpl. by rewrite IH.
Qed.

Lemma names_in_cons (c c' : outcome) (t : string)
    (tr : list (string * outcome)) :
  names_in c ((t, c') :: tr) =
  if decide (c' = c) then t :: names_in c tr else names_in c tr.
Proof.
  unfold names_in. case_decide.
  - by rewrite filter_cons_True.
  - by rewrite filter_cons_False.
Qed.

Lemma names_in_partition (tr : list (string * outcome)) :
  names_in Accessible tr ++ names_in Protected tr ++
  names_in Indeterminate tr ++ names_in Absent tr ≡ₚ tr.*1.
Proof.
  induction tr as [|[t c] tr IH]; [done|].
  rewrite fmap_cons. simpl fst. rewrite <- IH, !names_in_cons.
  destruct c; simpl.
  - done.
  - by rewrite <- Permutation_middle.
  - rewrite !app_assoc, <- Permutation_middle. by rewrite <- !app_assoc.
  - rewrite (app_assoc _ _ (t :: _)), <- Permutation_middle.
    by rewrite <- !app_assoc.
Qed.

(** X5: what a scan pass does, for every transport. It raises nothing; it
    sends exactly one probe per candidate, in candidate order; the
    accessible, protected and unknown buckets hold, in order, the names of
    the candidates whose probe was Accessible, Protected and Indeterminate;
    together with the candidates whose probe was Absent (recorded nowhere)
    these are all the candidates. *)
Theorem scan_accounts_by_class {World : Type}
    (requests_get : request → World → result response * World)
    (self : scanner) (st : state World) :
  let tr := probe_trace requests_get self (common_tables self) (world st) in
  ∃ res st',
    comprehensive_table_scan requests_get self st = (Ok res, st') ∧
    sent st' = sent st ++ (probe_request self <$> common_tables self) ∧
    bucket_names (accessible res) = VStr <$> names_in Accessible tr ∧
    bucket_names (protected res) = VStr <$> names_in Protected tr ∧
    bucket_names (unknown res) = VStr <$> names_in Indeterminate tr ∧
    names_in Accessible tr ++ names_in Protected tr ++
      names_in Indeterminate tr ++ names_in Absent tr ≡ₚ common_tables self.
Proof.
  intros tr.
  destruct (comprehensive_table_scan_spec requests_get self st)
    as (res & st' & Hrun & Hsent & Ha & Hp & Hu & _).
  exists res, st'. split_and!; try done.
  rewrite names_in_partition. unfold tr. by rewrite probe_trace_names.
Qed.

(** X6: the batches of the scan. They are consecutive chunks of the
    candidate list: concatenated they give the list back, there are
    ceil(n/10) of them, none is empty and none has more than ten
    names. *)
Theorem batches_partition (tables : list string) :
  concat (batches tables) = tables ∧
  length (batches tables) = (length tables + 9) `div` 10 ∧
  Forall (λ b, 0 < length b ∧ length b ≤ 10) (batches tables).
Proof.
  split; [apply concat_batches|]. split.
  - unfold batches, range_step, batch_size.
    rewrite !length_fmap, length_seq. f_equal. lia.
  - unfold batches, range_step, slice, batch_size.
    rewrite <- list_fmap_compose. apply Forall_fmap, Forall_forall.
    intros k Hk. apply elem_of_seq in Hk. simpl.
    rewrite length_take, length_drop.
    pose proof (Nat.div_mod_eq (length tables + 10 - 1) 10).
    pose proof (Nat.mod_upper_bound (length tables + 10 - 1) 10).
    lia.
Qed.

(** X7: what the scan loop keeps of a probe. For a 200 answer whose body
    parses, the entry appended to 'accessible' holds the name and the
    parsed body; for any other status code but 404, the entry appended to
    'protected' holds the name, the error text and the status code. *)
Theorem scan_one_records {World : Type}
    (requests_get : request → World → result response * World)
    (self : scanner) (results : scan_results) (name : string)
    (st : state World) (resp : response) :
  (requests_get (probe_request self name) (world st)).1 = Ok resp →
  (∀ data, status_code resp = 200%Z → resp_json resp = Ok data →
     (scan_one requests_get self results name st).1 =
       Ok {| accessible := accessible results ++
               [[("name", VStr name); ("sample_data", data)]];
             protected := protected results;
             unknown := unknown results;
             not_found := not_found results |}) ∧
  (status_code resp ≠ 200%Z → status_code resp ≠ 404%Z →
     ∃ msg,
       (scan_one requests_get self results name st).1 =
         Ok {| accessible := accessible results;
               protected := protected results ++
                 [[("name", VStr name); ("error", VStr msg);
                   ("status_code", VInt (status_code resp))]];
               unknown := unknown results;
               not_found := not_found results |}).
Proof.
  intros Hr. rewrite scan_one_spec. simpl. rewrite Hr. split.
  - intros data Hs Hj. unfold record_entry, probe_dict, classify.
    rewrite decide_True by done. by rewrite Hj.
  - intros H200 H404. unfold record_entry, probe_dict, classify.
    rewrite decide_False by done.
    destruct (decide (status_code resp = 401%Z)) as [->|];
      [by eexists|].
    destruct (decide (status_code resp = 403%Z)) as [->|];
      [by eexists|].
    rewrite decide_False by done. by eexists.
Qed.

Lemma scan_one_records_witness :
  (scan_one (always 200) demo empty_results "users" start).1 =
    Ok {| accessible := [[("name", VStr "users"); ("sample_data", VList [])]];
          protected := []; unknown := []; not_found := [] |}.
Proof.
  pose proof (scan_one_records (always 200) demo empty_results "users" start
                {| status_code := 200; resp_json := Ok (VList []);
                   resp_text := "" |} eq_refl) as [Hacc _].
  exact (Hacc (VList []) eq_refl eq_refl).
Defined.

End ScanExtra.

(** ** Further properties of the schema inference *)

Module SchemaExtra.
Import PyStr PyVal Net Scanner Schema SchemaFacts.

Lemma analyze_success `{SetOrder} (data : value) (d : pydict) :
  analyze data = Ok d → dict_lookup "success" d = Some (VBool true).
Proof.
  unfold analyze. destruct (truthy data); [|by intros [= <-]].
  destruct data as [| | | | |l|]; try done.
  destruct l as [|row0 rows]; [done|].
  destruct row0; try done.
  destruct (fill_column_info _ _ _); [|done]. by intros [= <-].
Qed.

(** X8: [get_table_schema_info] is total. Whatever the transport does, it
    raises nothing, sends exactly one request (limit 10, no timeout) and
    returns a dictionary whose 'success' is [True] or [False]; it is
    [False], with an 'error' string, whenever the transport raised or the
    status code is not 200, and [True] only for a 200 answer whose body
    parsed and was analysed without error. *)
Theorem get_table_schema_info_total `{SetOrder} {World : Type}
    (requests_get : request → World → result response * World)
    (self : scanner) (name : string) (st : state World) :
  let r := requests_get (schema_request self name) (world st) in
  ∃ d,
    get_table_schema_info requests_get self name st =
      (Ok d, {| world := r.2;
                sent := sent st ++ [schema_request self name] |}) ∧
    (dict_lookup "success" d = Some (VBool true) ∨
     dict_lookup "success" d = Some (VBool false) ∧
     ∃ msg, dict_lookup "error" d = Some (VStr msg)) ∧
    (∀ e, r.1 = Raise e →
       d = [("success", VBool false); ("error", VStr (str_exn e))]) ∧
    (∀ resp, r.1 = Ok resp → status_code resp ≠ 200%Z →
       d = [("success", VBool false);
            ("error", VStr ("HTTP " +:+ pretty (status_code resp)))]) ∧
    (dict_lookup "success" d = Some (VBool true) →
       ∃ resp data, r.1 = Ok resp ∧ status_code resp = 200%Z ∧
                    resp_json resp = Ok data ∧ analyze data = Ok d).
Proof.
  intros r. unfold r, get_table_schema_info, try_except, bind, http_get,
    lift, ret.
  destruct (requests_get _ _) as [[resp|e] w]; simpl.
  - destruct (decide (status_code resp = 200%Z)) as [Hs|Hs].
    + destruct (resp_json resp) as [data|e] eqn:Ej.
      * destruct (analyze data) as [d|e] eqn:Ea.
        -- exists d. split; [done|].
           pose proof (analyze_success _ _ Ea) as Hsucc.
           split_and!; [by left | done | by intros ? [= <-] | ].
           intros _. by exists resp, data.
        -- eexists. split; [done|].
           split_and!; [right; split; [done | by eexists] | done
                       | by intros ? [= <-] | done].
      * eexists. split; [done|].
        split_and!; [right; split; [done | by eexists] | done
                    | by intros ? [= <-] | done].
    + eexists. split; [done|].
      split_and!; [right; split; [done | by eexists] | done
                  | by intros ? [= <-] | done].
  - eexists. split; [done|].
    split_and!; [right; split; [done | by eexists] | by intros ? [= <-]
                | done | done].
Qed.

(** X9: an empty sample is no error. When the body of a 200 answer is
    false in a condition (an empty list, [null], [0], an empty object or
    string), [get_table_schema_info] succeeds and reports no column and no
    row. *)
Theorem schema_of_empty_sample `{SetOrder} {World : Type}
    (requests_get : request → World → result response * World)
    (self : scanner) (name : string) (st : state World)
    (resp : response) (data : value) :
  (requests_get (schema_request self name) (world st)).1 = Ok resp →
  status_code resp = 200%Z →
  resp_json resp = Ok data →
  truthy data = false →
  (get_table_schema_info requests_get self name st).1 =
    Ok [("success", VBool true);
        ("columns", VList []);
        ("column_info", VDict []);
        ("sample_count", VInt 0);
        ("sample_data", VList [])].
Proof.
  intros Hr Hs Hj Hf.
  unfold get_table_schema_info, try_except, bind, http_get, lift, ret.
  destruct (requests_get _ _) as [r w]. simpl in Hr. subst r.
  rewrite decide_True by done. rewrite Hj. unfold analyze. by rewrite Hf.
Qed.

Lemma schema_of_empty_sample_witness :
  (@get_table_schema_info canonical_order unit (Outcome.always 200)
     Outcome.demo "users" Outcome.start).1 =
    Ok [("success", VBool true);
        ("columns", VList []);
        ("column_info", VDict []);
        ("sample_count", VInt 0);
        ("sample_data", VList [])].
Proof.
  apply (@schema_of_empty_sample canonical_order unit (Outcome.always 200)
           Outcome.demo "users" Outcome.start
           {| status_code := 200; resp_json := Ok (VList []);
              resp_text := "" |} (VList []));
    reflexivity.
Defined.

Lemma fill_column_info_take `{SetOrder} (rows : list value)
    (columns : list string) (info : pydict) :
  fill_column_info (take 5 rows) columns info =
  fill_column_info rows columns info.
Proof.
  revert info. induction columns as [|col columns IH]; intros info; [done|].
  cbn [fill_column_info]. rewrite take_take. simpl Nat.min.
  destruct (collect_samples col (take 5 rows)); [|done].
  destruct (column_entry a); [|done]. apply IH.
Qed.

(** X10: rows after the fifth play no part in the inference. The
    [column_info] computed from a sample is the one computed from its
    first five rows, whatever the later rows are (even rows that are not
    objects). *)
Theorem column_info_from_first_five `{SetOrder} (d0 : pydict)
    (rest : list value) :
  column_info_of (analyze (VList (VDict d0 :: rest))) =
  column_info_of (analyze (VList (VDict d0 :: take 4 rest))).
Proof.
  unfold analyze. cbn [truthy]. cbv beta iota zeta.
  rewrite <- (fill_column_info_take (VDict d0 :: rest)).
  rewrite <- (fill_column_info_take (VDict d0 :: take 4 rest)).
  change (take 5 (VDict d0 :: rest)) with (VDict d0 :: take 4 rest).
  change (take 5 (VDict d0 :: take 4 rest))
    with (VDict d0 :: take 4 (take 4 rest)).
  rewrite take_take. simpl Nat.min.
  by destruct (fill_column_info _ _ _).
Qed.

(** X11: a 200 answer that is not a list of objects. When the parsed body
    is a non-empty JSON object (for instance an error document),
    [get_table_schema_info] reports failure with the error text "0", the
    text of the [KeyError] raised by [data[0]]. *)
Theorem schema_of_object_body_fails `{SetOrder} {World : Type}
    (requests_get : request → World → result response * World)
    (self : scanner) (name : string) (st : state World)
    (resp : response) (k : string) (v : value) (d : pydict) :
  (requests_get (schema_request self name) (world st)).1 = Ok resp →
  status_code resp = 200%Z →
  resp_json resp = Ok (VDict ((k, v) :: d)) →
  (get_table_schema_info requests_get self name st).1 =
    Ok [("success", VBool false); ("error", VStr "0")].
Proof.
  intros Hr Hs Hj.
  unfold get_table_schema_info, try_except, bind, http_get, lift, ret.
  destruct (requests_get _ _) as [r w]. simpl in Hr. subst r.
  rewrite decide_True by done. by rewrite Hj.
Qed.

Lemma schema_of_object_body_fails_witness :
  (@get_table_schema_info canonical_order unit
     (λ _ w, (Ok {| status_code := 200;
                    resp_json := Ok (VDict [("message", VStr "denied")]);
                    resp_text := "" |}, w))
     Outcome.demo "users" Outcome.start).1 =
    Ok [("success", VBool false); ("error", VStr "0")].
Proof.
  apply (@schema_of_object_body_fails canonical_order unit _ Outcome.demo
           "users" Outcome.start
           {| status_code := 200;
              resp_json := Ok (VDict [("message", VStr "denied")]);
              resp_text := "" |} "message" (VStr "denied") []);
    reflexivity.
Defined.

End SchemaExtra.

(** ** Properties of the alternative discovery and of the display *)

Module ReportExtra.
Import PyStr PyVal Net Generator Scanner Schema Outcome Report.
Import GeneratorFacts ProbeFacts ScanFacts SchemaFacts GeneratorExtra.

Lemma prefix_spec (a s : string) :
  String.prefix a s = true ↔ ∃ b, s = a +:+ b.
Proof.
  revert s. induction a as [|c a IH]; intros s.
  - split; [by exists s | by destruct s].
  - destruct s as [|c' s]; simpl; [split; [done | by intros [? ?]]|].
    destruct (ascii_dec c c') as [<-|Hne].
    + rewrite IH. split; intros [b Hb]; exists b.
      * rewrite app_cons. by f_equal.
      * rewrite app_cons in Hb. by injection Hb.
    + split; [done|]. intros [b Hb]. rewrite app_cons in Hb.
      by injection Hb.
Qed.

(** [needle in s] holds exactly when [s] is some text, [needle], and some
    more text. *)
Lemma contains_spec (needle s : string) :
  contains needle s = true ↔ ∃ a b, s = a +:+ (needle +:+ b).
Proof.
  induction s as [|c s IH]; cbn [contains].
  - rewrite orb_false_r, prefix_spec. split.
    + intros [b Hb]. by exists "", b.
    + intros (a & b & Hab). destruct a; [by exists b | done].
  - rewrite orb_true_iff, IH, prefix_spec. split.
    + intros [[b Hb] | (a & b & Hab)].
      * by exists "", b.
      * exists (String c a), b. rewrite app_cons. by f_equal.
    + intros (a & b & Hab). destruct a as [|c' a].
      * left. by exists b.
      * right. rewrite app_cons in Hab. injection Hab as _ Hab.
        by exists a, b.
Qed.

Lemma elem_of_tables_in (text : string) (tables discovered : list string)
    (x : string) :
  x ∈ tables_in text tables discovered ↔
  x ∈ discovered ∨ x ∈ tables ∧ contains x text = true.
Proof.
  unfold tables_in. revert discovered.
  induction tables as [|t ts IH]; intros discovered; simpl.
  - split; [by left | by intros [?|[?%elem_of_nil _]]].
  - rewrite IH. destruct (contains t text) eqn:Ec.
    + rewrite elem_of_app, list_elem_of_singleton, elem_of_cons. split.
      * intros [[?| ->] | [? ?]]; [by left | right | right]; split;
          try done; [by left | by right].
      * intros [? | [[->|?] ?]]; [by do 2 left | left; by right |].
        right. by split.
    + rewrite elem_of_cons. split.
      * intros [? | [? ?]]; [by left|]. right. split; [by right|done].
      * intros [? | [[->|?] ?]]; [by left | congruence |].
        right. by split.
Qed.

Section WithTransport.
Context `{SetOrder} `{PyText} {World : Type}.
Variable requests_get : request → World → result response * World.
Variable lower : string → string.

Lemma try_endpoint_spec (self : scanner) (discovered : list string)
    (endpoint : string) (st : state World) :
  let r := requests_get (endpoint_request self endpoint) (world st) in
  ∃ discovered',
    try_endpoint requests_get lower self discovered endpoint st =
      (Ok discovered',
       {| world := r.2;
          sent := sent st ++ [endpoint_request self endpoint] |}) ∧
    ∀ t, t ∈ discovered' ↔
         t ∈ discovered ∨ t ∈ common_tables self ∧ hit lower r.1 t.
Proof.
  intros r. unfold r, try_endpoint, try_except, bind, http_get, ret, hit.
  destruct (requests_get _ _) as [[resp|e] w]; simpl.
  - destruct (decide (status_code resp = 200%Z)) as [Hs|Hs].
    + eexists. split; [done|]. intros t. rewrite elem_of_tables_in.
      split; (intros [?|[? Hh]]; [by left|right; split; [done|]]).
      * by exists resp.
      * by destruct Hh as (? & [= <-] & _ & ?).
    + eexists. split; [done|]. intros t. split; [by left|].
      intros [?|[_ (? & [= <-] & ? & _)]]; done.
  - eexists. split; [done|]. intros t. split; [by left|].
    by intros [?|[_ (? & [=] & _)]].
Qed.

(** X12: the alternative discovery. It raises nothing and sends three
    requests: the root endpoint, the RPC endpoint and the root endpoint
    again. It returns, without duplicates, exactly the candidates that
    occur in the lower-cased text of a 200 answer to the first or to the
    second request; the third answer is not used. *)
Theorem alternative_discovery_spec (self : scanner) (st : state World) :
  let q1 := endpoint_request self "/rest/v1/" in
  let q2 := endpoint_request self "/rest/v1/rpc/" in
  let r1 := requests_get q1 (world st) in
  let r2 := requests_get q2 r1.2 in
  ∃ found st',
    try_alternative_discovery_methods requests_get lower self st =
      (Ok found, st') ∧
    sent st' = sent st ++ [q1; q2; q1] ∧
    NoDup found ∧
    ∀ t, t ∈ found ↔ t ∈ common_tables self ∧ (hit lower r1.1 t ∨ hit lower r2.1 t).
Proof.
  cbv zeta.
  unfold try_alternative_discovery_methods, endpoints_to_try.
  cbn [for_each]. unfold bind at 1 2 3.
  destruct (try_endpoint_spec self [] "/rest/v1/" st)
    as (d1 & E1 & Hd1). cbv zeta in E1, Hd1. rewrite E1.
  destruct (try_endpoint_spec self d1 "/rest/v1/rpc/"
              {| world := (requests_get (endpoint_request self "/rest/v1/")
                             (world st)).2;
                 sent := sent st ++ [endpoint_request self "/rest/v1/"] |})
    as (d2 & E2 & Hd2). cbv zeta in E2, Hd2. cbn [world sent] in E2, Hd2.
  rewrite E2.
  unfold ret at 1. unfold bind at 1.
  unfold try_except, bind, http_get, ret.
  cbn [world sent].
  destruct (requests_get (endpoint_request self "/rest/v1/")
              (requests_get (endpoint_request self "/rest/v1/rpc/") _).2)
    as [[resp|e] w]; cbn [fst snd];
    (eexists _, _; split; [done|]; cbn [sent];
     split; [by rewrite <- !app_assoc|];
     split; [apply NoDup_set_iter|];
     intros t; rewrite elem_of_set_iter, elem_of_list_to_set, Hd2, Hd1;
     split;
     [ intros [[?%elem_of_nil|[? ?]]|[? ?]]; (split; [done|]); by eauto
     | intros [? [?|?]]; [left; right | right]; by split ]).
Qed.

End WithTransport.

Lemma join_check_strs (i : nat) (cols : list string) :
  join_check i (VStr <$> cols) = Ok ().
Proof.
  revert i. induction cols as [|c cols IH]; intros i; [done|]. apply IH.
Qed.

Lemma join_check_take (i k : nat) (cols : list string) :
  join_check i (take k (VStr <$> cols)) = Ok ().
Proof. rewrite <- fmap_take. apply join_check_strs. Qed.

Lemma analyze_shape `{SetOrder} (data : value) (d : pydict) :
  analyze data = Ok d →
  ∃ cols info n sd,
    d = [("success", VBool true);
         ("columns", VList (VStr <$> cols));
         ("column_info", VDict info);
         ("sample_count", VInt n);
         ("sample_data", sd)].
Proof.
  unfold analyze. destruct (truthy data).
  - destruct data as [| | | | |l|]; try done.
    destruct l as [|row0 rows]; [done|].
    destruct row0; try done.
    destruct (fill_column_info _ _ _); [|done]. intros [= <-].
    by eexists _, _, _, _.
  - intros [= <-]. by exists [], [], 0%Z, (VList []).
Qed.

Section WithTransport.
Context `{SetOrder} `{PyText} {World : Type}.
Variable requests_get : request → World → result response * World.

Lemma schema_info_run (self : scanner) (n : string) (st : state World) :
  ∃ d,
    get_table_schema_info requests_get self n st =
      (Ok d, {| world := (requests_get (schema_request self n) (world st)).2;
                sent := sent st ++ [schema_request self n] |}) ∧
    ((∃ msg, d = [("success", VBool false); ("error", VStr msg)]) ∨
     (∃ data, analyze data = Ok d)).
Proof.
  unfold get_table_schema_info, try_except, bind, http_get, lift, ret.
  destruct (requests_get _ _) as [[resp|e] w]; simpl.
  - destruct (decide (status_code resp = 200%Z)) as [Hs|Hs].
    + destruct (resp_json resp) as [data|e].
      * destruct (analyze data) as [d|e] eqn:Ea.
        -- exists d. split; [done|]. right. by exists data.
        -- eexists. split; [done|]. left. by eexists.
      * eexists. split; [done|]. left. by eexists.
    + eexists. split; [done|]. left. by eexists.
  - eexists. split; [done|]. left. by eexists.
Qed.

Lemma describe_table_spec (self : scanner) (acc : list pydict)
    (table_info : pydict) (n : string) (st : state World) :
  dict_lookup "name" table_info = Some (VStr n) →
  ∃ cols info sd,
    describe_table requests_get self acc table_info st =
      (Ok (acc ++ [[("name", VStr n); ("columns", VList (VStr <$> cols));
                    ("column_info", VDict info); ("sample_data", sd)]]),
       {| world := (requests_get (schema_request self n) (world st)).2;
          sent := sent st ++ [schema_request self n] |}).
Proof.
  intros Hname. unfold describe_table, getitem. rewrite Hname.
  unfold bind at 1. unfold lift at 1. rewrite py_str_str.
  unfold bind at 1.
  destruct (schema_info_run self n st) as (d & Hrun & Hcases).
  rewrite Hrun.
  destruct Hcases as [[msg ->] | [data Ha]]; [|].
  2: { apply analyze_shape in Ha as (cols & info & k & sd & ->).
    exists cols, info, sd.
    unfold bind, lift, ret, getitem. simpl.
    destruct cols as [|c cols]; simpl; [done|].
    change (list_fmap string value VStr cols) with (VStr <$> cols).
    by rewrite join_check_take. }
  exists [], [], (VList []). done.
Qed.

Lemma describe_loop_spec (self : scanner) (entries : list pydict)
    (names : list string) (acc : list pydict) (st : state World) :
  bucket_names entries = VStr <$> names →
  ∃ detailed st',
    for_each entries (describe_table requests_get self) acc st =
      (Ok (acc ++ detailed), st') ∧
    sent st' = sent st ++ (schema_request self <$> names) ∧
    bucket_names detailed = VStr <$> names ∧
    Forall (λ e, dict_keys e =
                   ["name"; "columns"; "column_info"; "sample_data"])
           detailed.
Proof.
  revert names acc st.
  induction entries as [|e entries IH]; intros names acc st Hnames.
  - destruct names; [|done]. exists [], st. simpl.
    by rewrite !app_nil_r.
  - destruct names as [|n names]; [done|].
    unfold bucket_names in Hnames. rewrite !fmap_cons in Hnames.
    injection Hnames as Hn Hrest.
    assert (Hl : dict_lookup "name" e = Some (VStr n)).
    { unfold dict_get in Hn. by destruct (dict_lookup "name" e) as [v|];
        simpl in Hn; subst. }
    cbn [for_each]. unfold bind.
    destruct (describe_table_spec self acc e n st Hl)
      as (cols & info & sd & ->).
    destruct (IH names
                (acc ++ [[("name", VStr n); ("columns", VList (VStr <$> cols));
                          ("column_info", VDict info); ("sample_data", sd)]])
                {| world := (requests_get (schema_request self n)
                               (world st)).2;
                   sent := sent st ++ [schema_request self n] |} Hrest)
      as (detailed & st' & -> & Hsent & Hdn & Hkeys).
    eexists (_ :: detailed), st'. split; [by rewrite <- app_assoc|].
    split; [rewrite Hsent; simpl; by rewrite <- app_assoc|].
    split.
    + unfold bucket_names in *. rewrite !fmap_cons. by rewrite Hdn.
    + by constructor.
Qed.

Lemma print_loop_spec (entries : list pydict) (st : state World) :
  Forall protected_entry entries →
  for_each entries (λ _ info, print_protected (World:=World) info) () st =
    (Ok (), st).
Proof.
  induction 1 as [|e entries (Hn & He & Hs) _ IH]; [done|].
  cbn [for_each]. unfold bind at 1.
  destruct Hn as [vn Hn], He as [ve He], Hs as [vs Hs].
  unfold print_protected, bind, lift, ret, getitem.
  rewrite Hn, He, Hs. exact IH.
Qed.

Lemma scan_loop_inv (P : scan_results → Prop) (self : scanner) :
  (∀ t r results, P results → P (record_entry t (probe_dict r) results)) →
  ∀ tables results st res st',
    for_each tables (scan_one requests_get self) results st = (Ok res, st') →
    P results → P res.
Proof.
  intros Hstep tables.
  induction tables as [|t ts IH]; intros results st res st' Hrun HP.
  - by injection Hrun as <- _.
  - cbn [for_each] in Hrun. unfold bind in Hrun.
    rewrite scan_one_spec in Hrun. eapply IH; [exact Hrun|]. by apply Hstep.
Qed.

Lemma record_entry_protected (t : string) (r : result response)
    (results : scan_results) :
  Forall protected_entry (protected results) →
  Forall protected_entry
    (protected (record_entry t (probe_dict r) results)).
Proof.
  intros HP. unfold record_entry. rewrite classify_probe_dict.
  destruct (class_of_transport r) eqn:Ec; simpl; try done.
  apply Forall_app. split; [done|]. constructor; [|done].
  unfold protected_entry. simpl.
  revert Ec. unfold class_of_transport, probe_dict.
  destruct r as [resp|e]; [|done].
  repeat case_decide; try done; try (destruct (resp_json resp); done);
    intros _; split_and!; by eexists.
Qed.

(** X13: the display after a scan. Run on the results of a scan pass, from
    the state the pass ends in, [display_comprehensive_results] raises
    nothing; it sends one schema request per accessible table, in bucket
    order, and none for the others; the list it returns has one entry per
    accessible table, in the same order and with the same names, each with
    exactly the keys 'name', 'columns', 'column_info' and
    'sample_data'. *)
Theorem display_after_scan (self : scanner) (st : state World) :
  let tr := probe_trace requests_get self (common_tables self) (world st) in
  ∃ res st1 detailed st2,
    comprehensive_table_scan requests_get self st = (Ok res, st1) ∧
    display_comprehensive_results requests_get self res st1 =
      (Ok detailed, st2) ∧
    sent st2 =
      sent st1 ++ (schema_request self <$> names_in Accessible tr) ∧
    bucket_names detailed = bucket_names (accessible res) ∧
    Forall (λ e, dict_keys e =
                   ["name"; "columns"; "column_info"; "sample_data"])
           detailed.
Proof.
  intros tr.
  destruct (comprehensive_table_scan_spec requests_get self st)
    as (res & st1 & Hrun & _ & Ha & _).
  assert (Hprot : Forall protected_entry (protected res)).
  { unfold comprehensive_table_scan in Hrun.
    rewrite for_each_concat, concat_batches in Hrun.
    apply (scan_loop_inv (λ r, Forall protected_entry (protected r)) self
             (λ t r results, record_entry_protected t r results)
             _ _ _ _ _ Hrun).
    constructor. }
  simpl in Ha. fold tr in Ha.
  destruct (describe_loop_spec self (accessible res)
              (names_in Accessible tr) [] st1 Ha)
    as (detailed & st2 & Hd & Hsent & Hnames & Hkeys).
  exists res, st1, detailed, st2. split; [done|].
  unfold display_comprehensive_results, bind. rewrite Hd.
  rewrite (print_loop_spec _ _ Hprot). unfold ret.
  split; [done|]. split; [done|]. split; [|done].
  by rewrite Hnames, Ha.
Qed.

End WithTransport.
End ReportExtra.

(** ** Properties of the constructor *)

Module InitExtra.
Import PyStr PyVal Net Generator Scanner Report.
Import GeneratorFacts GeneratorExtra.

Lemma endswith_slash_cons (c : ascii) (r : string) :
  r ≠ "" → endswith r "/" = false → endswith (String c r) "/" = false.
Proof.
  intros Hne Hr. destruct (endswith (String c r) "/") eqn:E; [|done].
  apply endswith_spec in E as [p Hp].
  destruct p as [|c' p].
  - change ("" +:+ "/") with "/" in Hp. injection Hp as _ ->. done.
  - rewrite app_cons in Hp. injection Hp as _ ->.
    assert (endswith (p +:+ "/") "/" = true); [|congruence].
    apply endswith_spec. by exists p.
Qed.

Lemma rstrip_slash_spec (s : string) :
  (∃ n, s = rstrip_slash s +:+ slashes n) ∧
  endswith (rstrip_slash s) "/" = false.
Proof.
  induction s as [|c s [[n Hn] Hend]]; [split; [by exists 0 | done]|].
  cbn [rstrip_slash].
  destruct (rstrip_slash s) as [|c' r] eqn:Er.
  - change ("" +:+ slashes n) with (slashes n) in Hn. subst s.
    destruct (Ascii.eqb c "/") eqn:Ec.
    + apply Ascii.eqb_eq in Ec as ->. split; [by exists (S n) | done].
    + split; [by exists n|].
      destruct (endswith (String c "") "/") eqn:E; [|done].
      apply endswith_spec in E as [p Hp].
      destruct p as [|c' p].
      * change ("" +:+ "/") with "/" in Hp. injection Hp as ->.
        by rewrite Ascii.eqb_refl in Ec.
      * rewrite app_cons in Hp. injection Hp as _ Hp. by destruct p.
  - split.
    + exists n. rewrite app_cons. by f_equal.
    + by apply endswith_slash_cons.
Qed.

(** X14: the constructor strips every trailing slash of the URL. The
    stored [api_url] does not end in "/" and the URL given is [api_url]
    followed by slashes only; the probe of a table therefore asks for
    [api_url], one slash, and the table name. *)
Theorem init_strips_trailing_slashes `{SetOrder} (url key token : string) :
  let self := init url key token in
  (∃ n, url = api_url self +:+ slashes n) ∧
  endswith (api_url self) "/" = false ∧
  ∀ table, req_url (probe_request self table) =
           api_url self +:+ "/" +:+ table.
Proof.
  intros self. unfold self, init. cbn [api_url].
  destruct (rstrip_slash_spec url) as [Hn He]. by split_and!.
Qed.

End InitExtra.

(** ** Properties of the type vote *)

Module VoteExtra.
Import PyStr PyVal Net Scanner Schema SchemaFacts.

(** X15: a clear majority decides the type. When one type name has more
    votes among the samples than every other, it is the inferred type,
    for every order in which Python may iterate over the set of type
    names. *)
Theorem majority_type_wins `{SetOrder} (sample_values : list value)
    (t0 : string) :
  (∀ t', t' ≠ t0 →
     count (type_name <$> sample_values) t' <
     count (type_name <$> sample_values) t0) →
  column_entry sample_values =
    Ok [("type", VStr t0); ("sample_values", VList (take 3 sample_values))].
Proof.
  intros Hmaj.
  destruct (column_entry_ok sample_values) as (t & -> & Hdom).
  destruct (decide (t = t0)) as [->|Hne]; [done|]. exfalso.
  destruct Hdom as [[-> ->] | (_ & _ & Hmax)].
  - specialize (Hmaj "unknown" Hne). vm_compute in Hmaj. lia.
  - specialize (Hmaj t Hne). specialize (Hmax t0). lia.
Qed.

Lemma majority_type_wins_witness :
  @column_entry canonical_order [VInt 1; VStr "a"; VInt 2] =
    Ok [("type", VStr "int");
        ("sample_values", VList [VInt 1; VStr "a"; VInt 2])].
Proof.
  apply (@majority_type_wins canonical_order [VInt 1; VStr "a"; VInt 2] "int").
  intros t' Hne. unfold count. simpl.
  destruct (decide (t' = "str")) as [->|Hs].
  - vm_compute. lia.
  - rewrite !filter_cons_False by congruence. simpl. lia.
Defined.

(** X16: a tie is not decided by the program. For a sample with as many
    values of one type as of another, the inferred type depends on the
    order in which Python iterates over the set of type names: two
    iteration orders give two different answers. *)
Theorem tie_depends_on_iteration_order :
  ∃ o1 o2 : SetOrder,
    @column_entry o1 [VInt 1; VStr "a"] ≠ @column_entry o2 [VInt 1; VStr "a"].
Proof.
  exists canonical_order, reversed_order. vm_compute. discriminate.
Qed.

End VoteExtra.
